(** * Peinture: the job adapter and the video task tracker

    A shallow embedding of the generation service (the job adapter:
    [getZImageDimensions], [getAuthHeaders], [extractCompleteEventData],
    [generateZImage], [generateQwenImage], [upscaler]) and of the polling
    effect of [App] (the task tracker), with the properties of the
    specification stated and settled against them.

    Conventions.
    - A JavaScript string is modelled by [string]: the sequence of its
      UTF-16 code units, for strings whose code units are all below 256.
    - A JavaScript number is modelled by [number]: NaN, an infinity, an
      integer, or a decimal literal [m * 10^e]. The integers stand for the
      doubles that represent them exactly (every integer up to 2^53 in
      absolute value does); negative zero is identified with zero.
    - A function that may throw returns an [outcome]. *)

From Stdlib Require Import ZArith Ascii String List Bool Lia.
From stdpp Require Import base option list strings pretty gmap.

Set Warnings "-register-all".
Local Open Scope string_scope.
Local Open Scope Z_scope.

(** ** JavaScript values and built-ins *)

Module Js.

Inductive number : Type :=
| NaN
| Infinity (negative : bool)
| Int (z : Z)
| Dec (mantissa exponent : Z).

Inductive value : Type :=
| VUndefined
| VNull
| VBool (b : bool)
| VNum (n : number)
| VStr (s : string)
| VArr (items : list value)
| VObj (fields : list (string * value)).

Inductive error : Type :=
| Error (message : string)
| TypeError.

Inductive outcome (A : Type) : Type :=
| Ok (a : A)
| Throw (e : error).
Arguments Ok {A} a.
Arguments Throw {A} e.

Definition bind {A B : Type} (m : outcome A) (k : A -> outcome B) : outcome B :=
  match m with
  | Ok a => k a
  | Throw e => Throw e
  end.

(** [try { m } catch (e) { log; throw e }] leaves the outcome as it is. *)
Definition rethrow {A : Type} (m : outcome A) : outcome A :=
  match m with
  | Ok a => Ok a
  | Throw e => Throw e
  end.

(** *** Truthiness *)

Definition truthyString (s : string) : bool :=
  match s with
  | EmptyString => false
  | String _ _ => true
  end.

Definition truthyOptString (o : option string) : bool :=
  match o with
  | Some s => truthyString s
  | None => false
  end.

Definition truthyNumber (n : number) : bool :=
  match n with
  | NaN => false
  | Infinity _ => true
  | Int z => negb (z =? 0)
  | Dec m _ => negb (m =? 0)
  end.

(** *** String.prototype methods *)

Definition newline : ascii := "010"%char.

(** [s.startsWith(p)] *)
Definition startsWith (p s : string) : bool := String.prefix p s.

(** [s.substring(n)] *)
Fixpoint substringFrom (n : nat) (s : string) : string :=
  match n, s with
  | O, _ => s
  | S _, EmptyString => EmptyString
  | S m, String _ r => substringFrom m r
  end.

(** White space and line terminators among the code units below 256:
    TAB, LF, VT, FF, CR, SP and NBSP. *)
Definition isWhiteSpace (c : ascii) : bool :=
  let n := nat_of_ascii c in
  ((9 <=? n)%nat && (n <=? 13)%nat) || (n =? 32)%nat || (n =? 160)%nat.

Fixpoint trimStart (s : string) : string :=
  match s with
  | EmptyString => EmptyString
  | String c r => if isWhiteSpace c then trimStart r else s
  end.

Fixpoint trimEnd (s : string) : string :=
  match s with
  | EmptyString => EmptyString
  | String c r =>
      match trimEnd r with
      | EmptyString => if isWhiteSpace c then EmptyString else String c EmptyString
      | r' => String c r'
      end
  end.

(** [s.trim()] *)
Definition trim (s : string) : string := trimEnd (trimStart s).

(** [s.split(sep)] for a separator of one code unit. *)
Fixpoint split (sep : ascii) (s : string) : list string :=
  match s with
  | EmptyString => [EmptyString]
  | String c r =>
      if Ascii.eqb c sep then EmptyString :: split sep r
      else match split sep r with
           | l :: ls => String c l :: ls
           | [] => [String c EmptyString]
           end
  end.

(** [s.replace(pat, rep)] for a string pattern: the first occurrence only. *)
Fixpoint replace (pat rep s : string) : string :=
  if String.prefix pat s then rep ++ substringFrom (String.length pat) s
  else match s with
       | EmptyString => EmptyString
       | String c r => String c (replace pat rep r)
       end.

(** *** parseInt *)

Definition digitValue (radix : Z) (c : ascii) : option Z :=
  let n := Z.of_nat (nat_of_ascii c) in
  let d := if (48 <=? n) && (n <=? 57) then Some (n - 48)
           else if (97 <=? n) && (n <=? 102) then Some (n - 87)
           else if (65 <=? n) && (n <=? 70) then Some (n - 55)
           else None in
  match d with
  | Some v => if v <? radix then Some v else None
  | None => None
  end.

(** The longest prefix of digits, read in the radix; [None] when the
    prefix is empty. *)
Fixpoint readDigits (radix : Z) (acc : option Z) (s : string) : option Z :=
  match s with
  | EmptyString => acc
  | String c r =>
      match digitValue radix c with
      | Some d =>
          readDigits radix (Some (radix * (match acc with Some a => a | None => 0 end) + d)) r
      | None => acc
      end
  end.

(** The double nearest to a natural number [m], ties to the even
    significand: [m] itself below 2^53, a multiple of 2^k with a 53-bit
    quotient beyond; [None] when the rounded value leaves the range of
    the doubles. *)
Definition nearestDouble (m : Z) : option Z :=
  if m <? 2 ^ 53 then Some m
  else
    let k := Z.log2 m - 52 in
    let q := Z.shiftr m k in
    let r := m - Z.shiftl q k in
    let half := 2 ^ (k - 1) in
    let q' := if r <? half then q
              else if half <? r then q + 1
              else if Z.even q then q else q + 1 in
    let v := Z.shiftl q' k in
    if v <? 2 ^ 1024 then Some v else None.

(** The number that stands for the integer [sign * m], [m] a natural
    number: the integer rounded to a double. *)
Definition integerNumber (sign m : Z) : number :=
  match nearestDouble m with
  | Some v => Int (sign * v)
  | None => Infinity (sign <? 0)
  end.

(** [parseInt(s)] with no radix argument. The digits are read exactly
    and the integer is rounded to a double once (an engine may replace
    the decimal digits after the twentieth by zeros first; the result is
    the same up to 2^53, where no rounding takes place). *)
Definition parseInt (s : string) : number :=
  let s1 := trimStart s in
  let '(sign, s2) :=
    match s1 with
    | String "-" r => (-1, r)
    | String "+" r => (1, r)
    | _ => (1, s1)
    end in
  let '(radix, s3) :=
    if String.prefix "0x" s2 || String.prefix "0X" s2
    then (16, substringFrom 2 s2) else (10, s2) in
  match readDigits radix None s3 with
  | Some m => integerNumber sign m
  | None => NaN
  end.

(** *** Property access on a value *)

Fixpoint assocLast (k : string) (fields : list (string * value)) : option value :=
  match fields with
  | [] => None
  | (k', v) :: rest =>
      match assocLast k rest with
      | Some w => Some w
      | None => if String.eqb k k' then Some v else None
      end
  end.

(** [v.name] for a property name that is neither an index nor [length]:
    a TypeError on [undefined] and [null], the field of an object,
    [undefined] elsewhere. *)
Definition getProp (v : value) (name : string) : outcome value :=
  match v with
  | VUndefined | VNull => Throw TypeError
  | VObj fields => Ok (default VUndefined (assocLast name fields))
  | _ => Ok VUndefined
  end.

(** Decimal rendering of an index, as a property key. *)
Definition indexKey (i : nat) : string := pretty i.

(** [v[i]] for an index [i]. *)
Definition getIndex (v : value) (i : nat) : outcome value :=
  match v with
  | VUndefined | VNull => Throw TypeError
  | VArr items => Ok (default VUndefined (items !! i))
  | VObj fields => Ok (default VUndefined (assocLast (indexKey i) fields))
  | VStr s =>
      Ok (match String.get i s with
          | Some c => VStr (String c EmptyString)
          | None => VUndefined
          end)
  | _ => Ok VUndefined
  end.

(** *** Conversion to a string, as string concatenation does it

    [toStr] is the conversion on strings, [undefined], [null], booleans,
    NaN, the infinities, the integers up to 2^53 in absolute value, the
    decimals [m * 10^e] with [m] not a multiple of ten, at most 17 digits
    and a value of at least 10^-6, and the arrays of such values. It is
    not the conversion elsewhere: a larger number is rendered by
    JavaScript with the fewest digits that read back to the same double
    (in exponent notation from 10^21 on), and an object that has a
    [toString] key of its own makes the concatenation throw, where [toStr]
    renders every object as the inherited [toString] does. The properties
    below use [toStr] on strings and on [undefined] only. *)

Fixpoint zeros (n : nat) : string :=
  match n with
  | O => EmptyString
  | S m => String "0" (zeros m)
  end.

Definition decimalString (m e : Z) : string :=
  let digits := pretty (Z.abs m) in
  let sign := if m <? 0 then "-" else EmptyString in
  if 0 <=? e then sign ++ digits ++ zeros (Z.to_nat e)
  else
    let k := Z.to_nat (- e) in
    let n := String.length digits in
    if (k <? n)%nat
    then sign ++ String.substring 0 (n - k) digits ++ "." ++ substringFrom (n - k) digits
    else sign ++ "0." ++ zeros (k - n) ++ digits.

Definition numberString (n : number) : string :=
  match n with
  | NaN => "NaN"
  | Infinity negative => if negative then "-Infinity" else "Infinity"
  | Int z => pretty z
  | Dec m e => decimalString m e
  end.

Fixpoint toStr (v : value) : string :=
  match v with
  | VUndefined => "undefined"
  | VNull => "null"
  | VBool b => if b then "true" else "false"
  | VNum n => numberString n
  | VStr s => s
  | VArr items =>
      String.concat ","
        (List.map (fun x => match x with
                            | VUndefined | VNull => EmptyString
                            | _ => toStr x
                            end) items)
  | VObj _ => "[object Object]"
  end.

End Js.

Export Js.

#[global] Instance outcome_ret : MRet outcome := @Ok.
#[global] Instance outcome_bind : MBind outcome := fun A B k m => Js.bind m k.

(** ** JSON texts

    [JSON.parse] is a built-in: the adapter is modelled over any parser
    [string -> option value] ([None] when the built-in throws a
    SyntaxError). [parseJSON] is the built-in on the fragment of JSON
    without fractions, exponents and [\u] escapes (texts outside the
    fragment are rejected); the worked examples run on it. *)

Module Json.

Definition dquote : ascii := "034"%char.
Definition backslash : ascii := "092"%char.

Definition isJsonSpace (c : ascii) : bool :=
  let n := nat_of_ascii c in
  (n =? 32)%nat || (n =? 9)%nat || (n =? 10)%nat || (n =? 13)%nat.

Fixpoint skipSpace (s : string) : string :=
  match s with
  | EmptyString => EmptyString
  | String c r => if isJsonSpace c then skipSpace r else s
  end.

Definition isDigit (c : ascii) : bool :=
  let n := nat_of_ascii c in (48 <=? n)%nat && (n <=? 57)%nat.

Fixpoint spanDigits (s : string) : string * string :=
  match s with
  | EmptyString => (EmptyString, EmptyString)
  | String c r =>
      if isDigit c then let '(d, rest) := spanDigits r in (String c d, rest)
      else (EmptyString, s)
  end.

Fixpoint decimalValue (acc : Z) (digits : string) : Z :=
  match digits with
  | EmptyString => acc
  | String c r => decimalValue (10 * acc + (Z.of_nat (nat_of_ascii c) - 48)) r
  end.

(** An integer literal: [-]? (0 | [1-9][0-9]* ), not followed by a
    fraction or an exponent. *)
Definition parseNumber (s : string) : option (value * string) :=
  let '(neg, body) :=
    match s with
    | String "-" r => (true, r)
    | _ => (false, s)
    end in
  let '(digits, rest) := spanDigits body in
  match digits with
  | EmptyString => None
  | String d ds =>
      if Ascii.eqb d "0" && negb (String.eqb ds EmptyString) then None
      else match rest with
           | String "." _ | String "e" _ | String "E" _ => None
           | _ =>
               let m := decimalValue 0 digits in
               Some (VNum (Int (if neg then - m else m)), rest)
           end
  end.

Definition unescape (c : ascii) : option ascii :=
  if Ascii.eqb c dquote then Some dquote
  else if Ascii.eqb c backslash then Some backslash
  else if Ascii.eqb c "/" then Some "/"%char
  else if Ascii.eqb c "b" then Some "008"%char
  else if Ascii.eqb c "f" then Some "012"%char
  else if Ascii.eqb c "n" then Some "010"%char
  else if Ascii.eqb c "r" then Some "013"%char
  else if Ascii.eqb c "t" then Some "009"%char
  else None.

(** The characters of a string literal after its opening quote. *)
Fixpoint parseChars (s : string) : option (string * string) :=
  match s with
  | EmptyString => None
  | String c r =>
      if Ascii.eqb c dquote then Some (EmptyString, r)
      else if Ascii.eqb c backslash then
        match r with
        | String e r' =>
            match unescape e, parseChars r' with
            | Some u, Some (str, rest) => Some (String u str, rest)
            | _, _ => None
            end
        | EmptyString => None
        end
      else if (nat_of_ascii c <? 32)%nat then None
      else match parseChars r with
           | Some (str, rest) => Some (String c str, rest)
           | None => None
           end
  end.

Section Members.

Variable parseElement : string -> option (value * string).

(** The elements of an array after the first one has been announced:
    [value (, value)* ]]. *)
Fixpoint parseItems (n : nat) (s : string) : option (list value * string) :=
  match n with
  | O => None
  | S n' =>
      match parseElement s with
      | Some (v, r) =>
          match skipSpace r with
          | String "," r' =>
              match parseItems n' r' with
              | Some (vs, r'') => Some (v :: vs, r'')
              | None => None
              end
          | String "]" r' => Some ([v], r')
          | _ => None
          end
      | None => None
      end
  end.

(** The members of an object: [string : value (, string : value)* }]. *)
Fixpoint parseFields (n : nat) (s : string) : option (list (string * value) * string) :=
  match n with
  | O => None
  | S n' =>
      match skipSpace s with
      | String q r =>
          if Ascii.eqb q dquote then
            match parseChars r with
            | Some (key, r1) =>
                match skipSpace r1 with
                | String ":" r2 =>
                    match parseElement r2 with
                    | Some (v, r3) =>
                        match skipSpace r3 with
                        | String "," r4 =>
                            match parseFields n' r4 with
                            | Some (fs, r5) => Some ((key, v) :: fs, r5)
                            | None => None
                            end
                        | String "}" r4 => Some ([(key, v)], r4)
                        | _ => None
                        end
                    | None => None
                    end
                | _ => None
                end
            | None => None
            end
          else None
      | EmptyString => None
      end
  end.

End Members.

Fixpoint parseValue (fuel : nat) (s : string) : option (value * string) :=
  match fuel with
  | O => None
  | S fuel' =>
      match skipSpace s with
      | EmptyString => None
      | String c r =>
          if Ascii.eqb c "n" then
            if String.prefix "ull" r then Some (VNull, substringFrom 3 r) else None
          else if Ascii.eqb c "t" then
            if String.prefix "rue" r then Some (VBool true, substringFrom 3 r) else None
          else if Ascii.eqb c "f" then
            if String.prefix "alse" r then Some (VBool false, substringFrom 4 r) else None
          else if Ascii.eqb c dquote then
            match parseChars r with
            | Some (str, rest) => Some (VStr str, rest)
            | None => None
            end
          else if Ascii.eqb c "[" then
            match skipSpace r with
            | String "]" r' => Some (VArr [], r')
            | _ =>
                match parseItems (parseValue fuel') fuel' r with
                | Some (vs, rest) => Some (VArr vs, rest)
                | None => None
                end
            end
          else if Ascii.eqb c "{" then
            match skipSpace r with
            | String "}" r' => Some (VObj [], r')
            | _ =>
                match parseFields (parseValue fuel') fuel' r with
                | Some (fs, rest) => Some (VObj fs, rest)
                | None => None
                end
            end
          else parseNumber (String c r)
      end
  end.

Definition parseJSON (s : string) : option value :=
  match parseValue (S (String.length s)) s with
  | Some (v, rest) =>
      match skipSpace rest with
      | EmptyString => Some v
      | String _ _ => None
      end
  | None => None
  end.

(** A string literal with its quotes, for writing JSON texts. *)
Definition quoted (s : string) : string :=
  String dquote (s ++ String dquote EmptyString).

End Json.

(** ** The job adapter: the event stream of the result endpoint *)

Module Sse.

Definition quotaMessage : string :=
  "Your today's quota has been used up. You can set up Hugging Face Token to get more quota.".

(** The type of an [event:] line: [line.substring(6).trim()]. *)
Definition eventType (line : string) : string := trim (substringFrom 6 line).

(** The payload of a [data:] line: [line.substring(5).trim()]. *)
Definition dataPayload (line : string) : string := trim (substringFrom 5 line).

Section WithParser.

Variable JSON_parse : string -> option value.

(** The body of the [for] loop, as a recursion on the lines still to read;
    [isCompleteEvent] is the loop's flag. *)
Fixpoint scanLines (isCompleteEvent : bool) (lines : list string) : outcome value :=
  match lines with
  | [] => Ok VNull
  | line :: rest =>
      if startsWith "event:" line then
        if String.eqb (eventType line) "complete" then scanLines true rest
        else if String.eqb (eventType line) "error" then Throw (Error quotaMessage)
        else scanLines false rest
      else if startsWith "data:" line && isCompleteEvent then
        match JSON_parse (dataPayload line) with
        | Some v => Ok v
        | None => Ok VNull
        end
      else scanLines isCompleteEvent rest
  end.

Definition extractCompleteEventData (sseStream : string) : outcome value :=
  scanLines false (split newline sseStream).

End WithParser.

(** *** Event blocks: the vocabulary of the specification

    An event block is an [event:] line with the lines that follow it up
    to the next [event:] line. A block has a data line when one of those
    lines starts with [data:]; its payload is that of the first one. *)

Record block : Type := Block { header : string; body : list string }.

Definition isEventLine (line : string) : bool := startsWith "event:" line.
Definition isDataLine (line : string) : bool := startsWith "data:" line.

(** The lines before the first event line, and the blocks after them. *)
Fixpoint eventBlocks (lines : list string) : list string * list block :=
  match lines with
  | [] => ([], [])
  | line :: rest =>
      let '(pre, blocks) := eventBlocks rest in
      if isEventLine line then ([], Block line pre :: blocks)
      else (line :: pre, blocks)
  end.

Definition blocksOf (sseStream : string) : list block :=
  snd (eventBlocks (split newline sseStream)).

Definition isComplete (b : block) : bool := String.eqb (eventType (header b)) "complete".
Definition isError (b : block) : bool := String.eqb (eventType (header b)) "error".

Definition firstData (b : block) : option string :=
  dataPayload <$> List.find isDataLine (body b).

Definition hasData (b : block) : bool := bool_decide (is_Some (firstData b)).

(** A complete event followed by a data line. *)
Definition isCompleteWithData (b : block) : bool := isComplete b && hasData b.

(** The payloads of the complete events that have a data line, in stream
    order. *)
Definition completePayloads (sseStream : string) : list string :=
  omap (fun b => if isComplete b then firstData b else None) (blocksOf sseStream).

(** What the loop returns at a data line of a complete event. *)
Definition parsedPayload (JSON_parse : string -> option value) (payload : string)
  : outcome value :=
  Ok (default VNull (JSON_parse payload)).

(** The reading of the stream block by block: the first block that is an
    error, or a complete event with a data line, decides. *)
Fixpoint scanBlocks (JSON_parse : string -> option value) (blocks : list block)
  : outcome value :=
  match blocks with
  | [] => Ok VNull
  | b :: later =>
      if isComplete b then
        match firstData b with
        | Some payload => Ok (default VNull (JSON_parse payload))
        | None => scanBlocks JSON_parse later
        end
      else if isError b then Throw (Error quotaMessage)
      else scanBlocks JSON_parse later
  end.

(** The stream made of the given lines. *)
Definition unlines (lines : list string) : string :=
  String.concat (String newline EmptyString) lines.

End Sse.

(** ** Generated images

    The fields of [GeneratedImage] that the adapter and the tracker read
    or write. [url] and [seed] hold whatever the backend's payload holds
    at run time. An absent optional field is [None]. *)

Module Img.

Record t : Type := Make {
  id : string;
  url : value;
  model : string;
  prompt : string;
  aspectRatio : string;
  timestamp : Z;
  seed : value;
  videoStatus : option string;
  videoTaskId : option string;
  videoProvider : option string;
  videoUrl : option string;
  videoError : option string
}.

End Img.

(** ** The job adapter: requests and results *)

Module Adapter.

Import Sse.

Definition ZIMAGE_BASE_API_URL : string := "https://luca115-z-image-turbo.hf.space".
Definition QWEN_IMAGE_BASE_API_URL : string := "https://mcp-tools-qwen-image-fast.hf.space".
Definition UPSCALER_BASE_API_URL : string := "https://tuan2308-upscaler.hf.space".

(** *** Aspect ratios and dimensions *)

Inductive AspectRatioOption : Type :=
| R1_1 | R3_2 | R2_3 | R3_4 | R4_3 | R4_5 | R5_4 | R9_16 | R16_9.

(** The string of the union type that an option stands for. *)
Definition ratioString (r : AspectRatioOption) : string :=
  match r with
  | R1_1 => "1:1" | R3_2 => "3:2" | R2_3 => "2:3"
  | R3_4 => "3:4" | R4_3 => "4:3" | R4_5 => "4:5"
  | R5_4 => "5:4" | R9_16 => "9:16" | R16_9 => "16:9"
  end.

Definition allRatios : list AspectRatioOption :=
  [R1_1; R3_2; R2_3; R3_4; R4_3; R4_5; R5_4; R9_16; R16_9].

(** The two numbers that a ratio string [w:h] names. *)
Definition ratioParts (s : string) : option (Z * Z) :=
  match split ":" s with
  | [w; h] =>
      match readDigits 10 None w, readDigits 10 None h with
      | Some a, Some b => Some (a, b)
      | _, _ => None
      end
  | _ => None
  end.

Record dimensions : Type := Dimensions { width : Z; height : Z }.

Definition getZImageDimensions (ratio : string) (enableHD : bool) : dimensions :=
  if enableHD then
    if String.eqb ratio "16:9" then {| width := 2048; height := 1152 |}
    else if String.eqb ratio "4:3" then {| width := 2048; height := 1536 |}
    else if String.eqb ratio "3:2" then {| width := 1920; height := 1280 |}
    else if String.eqb ratio "9:16" then {| width := 1152; height := 2048 |}
    else if String.eqb ratio "3:4" then {| width := 1536; height := 2048 |}
    else if String.eqb ratio "2:3" then {| width := 1280; height := 1920 |}
    else {| width := 2048; height := 2048 |}
  else
    if String.eqb ratio "16:9" then {| width := 1280; height := 720 |}
    else if String.eqb ratio "4:3" then {| width := 1024; height := 768 |}
    else if String.eqb ratio "3:2" then {| width := 1536; height := 1024 |}
    else if String.eqb ratio "9:16" then {| width := 720; height := 1280 |}
    else if String.eqb ratio "3:4" then {| width := 768; height := 1024 |}
    else if String.eqb ratio "2:3" then {| width := 1024; height := 1536 |}
    else {| width := 1024; height := 1024 |}.

(** *** Headers *)

(** [localStorage]: [None] where the global does not exist. *)
Definition storage : Type := option (gmap string string).

Definition getItem (ls : storage) (key : string) : option string :=
  match ls with
  | Some items => items !! key
  | None => None
  end.

Definition getAuthHeaders (ls : storage) : gmap string string :=
  let token := getItem ls "huggingFaceToken" in
  let headers : gmap string string := {[ "Content-Type" := "application/json" ]} in
  match token with
  | Some t => if truthyString t then <[ "Authorization" := "Bearer " ++ t ]> headers else headers
  | None => headers
  end.

(** *** Requests

    A call of [fetch]. The body is the value handed to [JSON.stringify]. *)

Record request : Type := Request {
  reqUrl : string;
  reqMethod : string;
  reqHeaders : gmap string string;
  reqBody : option value
}.

(** What one exchange with a backend meets: the storage when each of the
    two requests is sent, what the two awaited reads yield
    ([queue.json()] and [response.text()], a throw where the call or
    the read fails), and the values drawn from the environment. *)
Record exchange : Type := Exchange {
  storageAtEnqueue : storage;
  storageAtResult : storage;
  queueJson : outcome value;
  responseText : outcome string;
  randomUUID : string;
  dateNow : Z;
  randomSeed : Z
}.

Definition num (z : Z) : value := VNum (Int z).

Definition enqueueRequest (env : exchange) (url : string) (data : list value) : request :=
  {| reqUrl := url; reqMethod := "POST";
     reqHeaders := getAuthHeaders (storageAtEnqueue env);
     reqBody := Some (VObj [("data", VArr data)]) |}.

Definition resultRequest (env : exchange) (url : string) : request :=
  {| reqUrl := url; reqMethod := "GET";
     reqHeaders := getAuthHeaders (storageAtResult env);
     reqBody := None |}.

Section WithParser.

Variable JSON_parse : string -> option value.

(** The two awaited steps shared by the three calls: the enqueue request,
    the destructuring of its reply, the result request and the scan of
    its text. The requests sent so far are returned with the outcome.
    The event id is appended to the URL by [toStr]: the event ids of the
    backends are strings, and the URL is the one of the code for the
    values on which [toStr] is the conversion of the concatenation. *)
Definition queueAndFetch (env : exchange) (enqueue : request) (resultUrl : string)
  : list request * outcome value :=
  match queueJson env with
  | Throw e => ([enqueue], Throw e)
  | Ok queue =>
      match getProp queue "event_id" with
      | Throw e => ([enqueue], Throw e)
      | Ok event_id =>
          ([enqueue; resultRequest env (resultUrl ++ toStr event_id)],
           result ← responseText env;
           extractCompleteEventData JSON_parse result)
      end
  end.

Definition generateZImage (env : exchange) (prompt aspectRatio : string)
    (seedArg : option number) (enableHD : bool) : list request * outcome Img.t :=
  let seed := default (Int (randomSeed env)) seedArg in
  let '{| width := width; height := height |} := getZImageDimensions aspectRatio enableHD in
  let '(sent, fetched) :=
    queueAndFetch env
      (enqueueRequest env (ZIMAGE_BASE_API_URL ++ "/gradio_api/call/generate_image")
         [VStr prompt; num height; num width; num 8; VNum seed; VBool false])
      (ZIMAGE_BASE_API_URL ++ "/gradio_api/call/generate_image/") in
  (sent,
   rethrow (
     data ← fetched;
     first ← getIndex data 0;
     u ← getProp first "url";
     second ← getIndex data 1;
     mret {| Img.id := randomUUID env; Img.url := u; Img.model := "z-image-turbo";
             Img.prompt := prompt; Img.aspectRatio := aspectRatio;
             Img.timestamp := dateNow env; Img.seed := second;
             Img.videoStatus := None; Img.videoTaskId := None;
             Img.videoProvider := None; Img.videoUrl := None;
             Img.videoError := None |})).

(** The two seed-dependent slots of the qwen payload: [seed || 42] and
    [seed === undefined]. *)
Definition qwenSeedSlot (seed : option number) : number :=
  match seed with
  | Some n => if truthyNumber n then n else Int 42
  | None => Int 42
  end.

Definition qwenRandomize (seed : option number) : bool :=
  match seed with
  | Some _ => false
  | None => true
  end.

(** [data[1].replace('Seed used for generation: ', '')] then [parseInt]:
    only a string has the method. *)
Definition parseSeedEcho (second : value) : outcome value :=
  match second with
  | VStr s => Ok (VNum (parseInt (replace "Seed used for generation: " EmptyString s)))
  | _ => Throw TypeError
  end.

Definition generateQwenImage (env : exchange) (prompt aspectRatio : string)
    (seed : option number) : list request * outcome Img.t :=
  let '(sent, fetched) :=
    queueAndFetch env
      (enqueueRequest env (QWEN_IMAGE_BASE_API_URL ++ "/gradio_api/call/generate_image")
         [VStr prompt; VNum (qwenSeedSlot seed); VBool (qwenRandomize seed);
          VStr aspectRatio; num 3; num 8])
      (QWEN_IMAGE_BASE_API_URL ++ "/gradio_api/call/generate_image/") in
  (sent,
   rethrow (
     data ← fetched;
     first ← getIndex data 0;
     u ← getProp first "url";
     second ← getIndex data 1;
     parsed ← parseSeedEcho second;
     mret {| Img.id := randomUUID env; Img.url := u; Img.model := "qwen-image-fast";
             Img.prompt := prompt; Img.aspectRatio := aspectRatio;
             Img.timestamp := dateNow env; Img.seed := parsed;
             Img.videoStatus := None; Img.videoTaskId := None;
             Img.videoProvider := None; Img.videoUrl := None;
             Img.videoError := None |})).

Definition generateImage (env : exchange) (model prompt aspectRatio : string)
    (seed : option number) (enableHD : bool) : list request * outcome Img.t :=
  if String.eqb model "qwen-image-fast"
  then generateQwenImage env prompt aspectRatio seed
  else generateZImage env prompt aspectRatio seed enableHD.

Definition upscaler (env : exchange) (url : string) : list request * outcome value :=
  let '(sent, fetched) :=
    queueAndFetch env
      (enqueueRequest env (UPSCALER_BASE_API_URL ++ "/gradio_api/call/realesrgan")
         [VObj [("path", VStr url); ("meta", VObj [("_type", VStr "gradio.FileData")])];
          VStr "RealESRGAN_x4plus"; VNum (Dec 5 (-1)); VBool false; num 4])
      (UPSCALER_BASE_API_URL ++ "/gradio_api/call/realesrgan/") in
  (sent,
   rethrow (
     data ← fetched;
     first ← getIndex data 0;
     u ← getProp first "url";
     mret (VObj [("url", u)]))).

End WithParser.

(** *** The vocabulary of the specification *)

(** The ratio of the dimensions, in lowest terms. *)
Definition reducedRatio (d : dimensions) : Z * Z :=
  let g := Z.gcd (width d) (height d) in (width d / g, height d / g).

(** The square defaults. *)
Definition square (enableHD : bool) : dimensions :=
  if enableHD then {| width := 2048; height := 2048 |}
  else {| width := 1024; height := 1024 |}.

(** The storage read when the i-th request of an exchange is sent. *)
Definition sendStorages (env : exchange) : list storage :=
  [storageAtEnqueue env; storageAtResult env].

(** The headers of the specification: the content type, and the bearer
    token exactly when the storage holds one. *)
Definition headersAsSpecified (ls : storage) (headers : gmap string string) : Prop :=
  headers !! "Content-Type" = Some "application/json"
  /\ match getItem ls "huggingFaceToken" with
     | Some token =>
         if truthyString token
         then headers !! "Authorization" = Some ("Bearer " ++ token)
         else headers !! "Authorization" = None
     | None => headers !! "Authorization" = None
     end.

End Adapter.

(** ** The task tracker: one cycle of the polling effect of [App] *)

Module Tracker.

(** Modelled from the spec: the value that [getGiteeTaskStatus] resolves
    to. The service module is not among the sources; the shape
    [{status, videoUrl?, error?}] is the one the polling effect casts its
    updates to, and the one of the specification's [pollStatus]. *)
Record TaskStatus : Type := {
  status : string;
  statusVideoUrl : option string;
  statusError : option string
}.

(** [{ id: img.id, ...result }] *)
Record Update : Type := {
  updateId : string;
  updateStatus : string;
  updateVideoUrl : option string;
  updateError : option string
}.

(** The state of [App] that the effect reads and sets. *)
Record AppState : Type := {
  history : list Img.t;
  currentImage : option Img.t;
  isLiveMode : bool;
  error : option string
}.

Definition optStringEqb (o : option string) (s : string) : bool :=
  match o with
  | Some x => String.eqb x s
  | None => false
  end.

(** The filter of the pending videos. *)
Definition isPendingVideo (img : Img.t) : bool :=
  optStringEqb (Img.videoStatus img) "generating"
  && truthyOptString (Img.videoTaskId img)
  && optStringEqb (Img.videoProvider img) "gitee".

(** [{ ...item, videoStatus: 'success', videoUrl }] *)
Definition withSuccess (item : Img.t) (videoUrl : option string) : Img.t :=
  {| Img.id := Img.id item; Img.url := Img.url item; Img.model := Img.model item;
     Img.prompt := Img.prompt item; Img.aspectRatio := Img.aspectRatio item;
     Img.timestamp := Img.timestamp item; Img.seed := Img.seed item;
     Img.videoStatus := Some "success"; Img.videoTaskId := Img.videoTaskId item;
     Img.videoProvider := Img.videoProvider item; Img.videoUrl := videoUrl;
     Img.videoError := Img.videoError item |}.

(** [{ ...item, videoStatus: 'failed', videoError }] *)
Definition withFailure (item : Img.t) (videoError : string) : Img.t :=
  {| Img.id := Img.id item; Img.url := Img.url item; Img.model := Img.model item;
     Img.prompt := Img.prompt item; Img.aspectRatio := Img.aspectRatio item;
     Img.timestamp := Img.timestamp item; Img.seed := Img.seed item;
     Img.videoStatus := Some "failed"; Img.videoTaskId := Img.videoTaskId item;
     Img.videoProvider := Img.videoProvider item; Img.videoUrl := Img.videoUrl item;
     Img.videoError := Some videoError |}.

(** [error || 'Video generation failed'] *)
Definition orDefaultMessage (error : option string) : string :=
  match error with
  | Some e => if truthyString e then e else "Video generation failed"
  | None => "Video generation failed"
  end.

Definition failureMessage (u : Update) : string := orDefaultMessage (updateError u).

Definition findUpdate (validUpdates : list Update) (id : string) : option Update :=
  List.find (fun u => String.eqb (updateId u) id) validUpdates.

(** The function mapped over the history by [setHistory]. *)
Definition applyUpdates (validUpdates : list Update) (item : Img.t) : Img.t :=
  match findUpdate validUpdates (Img.id item) with
  | None => item
  | Some update =>
      if String.eqb (updateStatus update) "success" && truthyOptString (updateVideoUrl update)
      then withSuccess item (updateVideoUrl update)
      else if String.eqb (updateStatus update) "failed"
      then withFailure item (failureMessage update)
      else item
  end.

(** The mirror of the update into the image on display, with the two
    flags set beside it. *)
Definition syncCurrent (validUpdates : list Update) (st : AppState) (hist : list Img.t)
  : AppState :=
  match currentImage st with
  | None =>
      {| history := hist; currentImage := None;
         isLiveMode := isLiveMode st; error := error st |}
  | Some currImg =>
      match findUpdate validUpdates (Img.id currImg) with
      | None =>
          {| history := hist; currentImage := Some currImg;
             isLiveMode := isLiveMode st; error := error st |}
      | Some relevantUpdate =>
          if String.eqb (updateStatus relevantUpdate) "success"
             && truthyOptString (updateVideoUrl relevantUpdate)
          then {| history := hist;
                  currentImage := Some (withSuccess currImg (updateVideoUrl relevantUpdate));
                  isLiveMode := true; error := error st |}
          else if String.eqb (updateStatus relevantUpdate) "failed"
          then {| history := hist;
                  currentImage := Some (withFailure currImg (failureMessage relevantUpdate));
                  isLiveMode := isLiveMode st;
                  error := Some (failureMessage relevantUpdate) |}
          else {| history := hist; currentImage := Some currImg;
                  isLiveMode := isLiveMode st; error := error st |}
      end
  end.

(** What the callback does once its polls have settled, on the state of
    that moment: [setHistory] hands the history of then to the function
    above, which looks at no field of a record but its id, and the image
    on display is the one of then. *)
Definition landUpdates (validUpdates : list Update) (prev : AppState) : AppState :=
  if (0 <? List.length validUpdates)%nat
  then syncCurrent validUpdates prev (List.map (applyUpdates validUpdates) (history prev))
  else prev.

Section WithService.

(** The outcome of [getGiteeTaskStatus(taskId)] during the cycle: the
    status the service reports, or a throw (network or parse error). *)
Variable getGiteeTaskStatus : string -> outcome TaskStatus.

(** The callback mapped over the pending videos: the polls it issues (the
    task ids handed to the service) and the update it resolves to. *)
Definition pollTask (img : Img.t) : list string * option Update :=
  match Img.videoTaskId img with
  | None => ([], None)
  | Some taskId =>
      if truthyString taskId then
        ([taskId],
         match getGiteeTaskStatus taskId with
         | Ok result =>
             if String.eqb (status result) "success" || String.eqb (status result) "failed"
             then Some {| updateId := Img.id img; updateStatus := status result;
                          updateVideoUrl := statusVideoUrl result;
                          updateError := statusError result |}
             else None
         | Throw _ => None
         end)
      else ([], None)
  end.

(** The valid updates of a cycle: those the polls of the pending videos
    resolve to. *)
Definition cycleUpdates (hist : list Img.t) : list Update :=
  omap (fun u => u) (List.map snd (List.map pollTask (List.filter isPendingVideo hist))).

(** One run of the interval callback, on a state that stays as it is
    while the polls are awaited: the polls issued, and the state after.
    The callback reads the history, awaits the polls and resumes; when
    the state has changed in between, what it does on resuming is
    [landUpdates] of its [cycleUpdates] on the new state. *)
Definition pollCycle (st : AppState) : list string * AppState :=
  let currentHist := history st in
  let pendingVideos := List.filter isPendingVideo currentHist in
  if (List.length pendingVideos =? 0)%nat then ([], st)
  else
    let polled := List.map pollTask pendingVideos in
    let updates := List.map snd polled in
    let validUpdates := omap (fun u => u) updates in
    (List.concat (List.map fst polled),
     if (0 <? List.length validUpdates)%nat
     then syncCurrent validUpdates st (List.map (applyUpdates validUpdates) (history st))
     else st).

End WithService.

(** The cycles of successive intervals, each with the answers the service
    gives during it, when every callback has resumed before the next one
    fires. *)
Fixpoint runCycles (services : list (string -> outcome TaskStatus)) (st : AppState)
  : AppState :=
  match services with
  | [] => st
  | service :: later => runCycles later (snd (pollCycle service st))
  end.

(** Two callbacks of which the second fires before the first has
    resumed (a poll that takes longer than the interval): both read the
    history of [st]; the first resumes on [st], the second on the state
    that the first has left. *)
Definition overlappedCycles (service1 service2 : string -> outcome TaskStatus)
    (st : AppState) : AppState :=
  let updates1 := cycleUpdates service1 (history st) in
  let updates2 := cycleUpdates service2 (history st) in
  landUpdates updates2 (landUpdates updates1 st).

(** *** Callbacks that overlap

    The interval fires whether or not the callback of the time before
    has resumed. What happens to the tracker is that the interval fires
    (the callback reads the history, its polls get the answers of the
    service, and it is in flight with the updates they resolve to), or
    that one of the callbacks in flight resumes. *)
Inductive Event : Type :=
| Fires (service : string -> outcome TaskStatus)
| Resumes (k : nat).

Record Running : Type := {
  appState : AppState;
  inFlight : list (list Update)
}.

Definition step (r : Running) (ev : Event) : Running :=
  match ev with
  | Fires service =>
      {| appState := appState r;
         inFlight := (inFlight r ++ [cycleUpdates service (history (appState r))])%list |}
  | Resumes k =>
      match inFlight r !! k with
      | Some validUpdates =>
          {| appState := landUpdates validUpdates (appState r);
             inFlight := delete k (inFlight r) |}
      | None => r
      end
  end.

Definition runEvents (events : list Event) (r : Running) : Running :=
  List.fold_left step events r.

(** The tracker with no callback in flight. *)
Definition idle (st : AppState) : Running := {| appState := st; inFlight := [] |}.

(** *** The vocabulary of the specification *)

Definition isTerminal (img : Img.t) : bool :=
  optStringEqb (Img.videoStatus img) "success" || optStringEqb (Img.videoStatus img) "failed".

Definition isGenerating (img : Img.t) : bool :=
  optStringEqb (Img.videoStatus img) "generating".

(** A response that reports neither success nor failure. *)
Definition isNonTerminal (r : TaskStatus) : bool :=
  negb (String.eqb (status r) "success" || String.eqb (status r) "failed").

(** The task id a pending record is polled with. *)
Definition ownTaskId (img : Img.t) : string := default EmptyString (Img.videoTaskId img).

(** The transition of one record on the outcome of its own poll:
    success with a result URL attaches the URL, failure attaches the
    message, anything else (a status that is not terminal, a success
    with no URL, a poll that throws) leaves the record as it is. *)
Definition reconcile (reply : outcome TaskStatus) (item : Img.t) : Img.t :=
  match reply with
  | Ok result =>
      if String.eqb (status result) "success" then
        if truthyOptString (statusVideoUrl result)
        then withSuccess item (statusVideoUrl result) else item
      else if String.eqb (status result) "failed"
      then withFailure item (orDefaultMessage (statusError result))
      else item
  | Throw _ => item
  end.

End Tracker.

(** ** Worked inputs *)

Module Examples.

Import Sse Json Adapter Tracker.

(** Two complete events, each with its data line. *)
Definition twoCompletes : string :=
  unlines ["event: complete"; "data: [1]"; "event: complete"; "data: [2]"].

(** A complete event with its data line, then an error event. *)
Definition completeThenError : string :=
  unlines ["event: complete"; "data: [1]"; "event: error"; "data: null"].

(** An error event, then a complete event with its data line. *)
Definition errorThenComplete : string :=
  unlines ["event: heartbeat"; "data: null"; "event: error"; "data: null";
           "event: complete"; "data: [1]"].

(** A complete event with no data line. *)
Definition completeNoData : string :=
  unlines ["event: generating"; "data: null"; "event: complete"; "id: 7"].

(** The stream of a generation that ends well: a heartbeat, then the
    complete event with the image and the echo of the seed 42. *)
Definition seedEchoStream : string :=
  unlines ["event: heartbeat"; "data: null"; "event: complete";
           "data: [{" ++ quoted "url" ++ ": " ++ quoted "https://h.example/x.png" ++ "}, "
             ++ quoted "Seed used for generation: 42" ++ "]";
           EmptyString].

(** The data of its complete event. *)
Definition echoData : value :=
  VArr [VObj [("url", VStr "https://h.example/x.png")];
        VStr "Seed used for generation: 42"].

(** An exchange with a token in the storage, an accepted job and the
    stream above. *)
Definition echoExchange : exchange :=
  {| storageAtEnqueue := Some {[ "huggingFaceToken" := "hf_token" ]};
     storageAtResult := Some {[ "huggingFaceToken" := "hf_token" ]};
     queueJson := Ok (VObj [("event_id", VStr "e1")]);
     responseText := Ok seedEchoStream;
     randomUUID := "0b9f6d0e-7c57-4a53-9a1e-2f1c3f6e8a11";
     dateNow := 1700000000000;
     randomSeed := 7 |}.

(** The same exchange with no token in the storage. *)
Definition anonymousExchange : exchange :=
  {| storageAtEnqueue := Some ∅;
     storageAtResult := None;
     queueJson := Ok (VObj [("event_id", VStr "e1")]);
     responseText := Ok seedEchoStream;
     randomUUID := "0b9f6d0e-7c57-4a53-9a1e-2f1c3f6e8a11";
     dateNow := 1700000000000;
     randomSeed := 7 |}.

(** A record of the history, with its video fields. *)
Definition record (id : string) (videoStatus videoTaskId videoUrl : option string) : Img.t :=
  {| Img.id := id; Img.url := VStr "https://h.example/x.png";
     Img.model := "z-image-turbo"; Img.prompt := "a cat"; Img.aspectRatio := "1:1";
     Img.timestamp := 1700000000000; Img.seed := VNum (Int 42);
     Img.videoStatus := videoStatus; Img.videoTaskId := videoTaskId;
     Img.videoProvider := match videoStatus with Some _ => Some "gitee" | None => None end;
     Img.videoUrl := videoUrl; Img.videoError := None |}.

Definition recordA : Img.t := record "a" (Some "generating") (Some "t1") None.
Definition recordB : Img.t :=
  record "b" (Some "success") (Some "t2") (Some "https://v.example/b.mp4").
Definition recordC : Img.t := record "c" (Some "generating") (Some "t3") None.
Definition recordD : Img.t := record "d" None None None.
Definition recordE : Img.t := record "e" (Some "generating") (Some "t5") None.

(** Two pending records, a finished one, one with no video and a third
    pending one; the finished one is on display. *)
Definition trackerState : AppState :=
  {| history := [recordA; recordB; recordC; recordD; recordE];
     currentImage := Some recordB; isLiveMode := true; error := None |}.

(** A state with nothing pending. *)
Definition idleState : AppState :=
  {| history := [recordB; recordD];
     currentImage := Some recordB; isLiveMode := true; error := None |}.

(** The poll of [t1] throws, [t3] has succeeded, every other task is
    still processing. *)
Definition trackerService (taskId : string) : outcome TaskStatus :=
  if String.eqb taskId "t1" then Throw (Error "Failed to fetch")
  else if String.eqb taskId "t3"
  then Ok {| status := "success"; statusVideoUrl := Some "https://v.example/c.mp4";
             statusError := None |}
  else Ok {| status := "processing"; statusVideoUrl := None; statusError := None |}.

End Examples.

(** ** The prompt optimizer *)

Module Prompt.

Import Sse Adapter.

Definition POLLINATIONS_API_URL : string := "https://text.pollinations.ai/openai".

(** The content of the system message, line by line. *)
Definition systemPrompt : string :=
  unlines
    ["I am a master AI image prompt engineering advisor, specializing in crafting prompts that yield cinematic, hyper-realistic, and deeply evocative visual narratives, optimized for advanced generative models.";
     "My core purpose is to meticulously rewrite, expand, and enhance user's image prompts.";
     "I transform prompts to create visually stunning images by rigorously optimizing elements such as dramatic lighting, intricate textures, compelling composition, and a distinctive artistic style.";
     "My generated prompt output will be strictly under 300 words. Prior to outputting, I will internally validate that the refined prompt strictly adheres to the word count limit and effectively incorporates the intended stylistic and technical enhancements.";
     "My output will consist exclusively of the refined image prompt text. It will commence immediately, with no leading whitespace.";
     "The text will strictly avoid markdown, quotation marks, conversational preambles, explanations, or concluding remarks.";
     "I will ensure the output text is in the same language as the user's prompts."].

(** Truthiness of a value, as [||] tests it. *)
Definition truthyValue (v : value) : bool :=
  match v with
  | VUndefined | VNull => false
  | VBool b => b
  | VNum n => truthyNumber n
  | VStr s => truthyString s
  | VArr _ | VObj _ => true
  end.

(** [v?.…]: the rest of the chain is skipped on [undefined] and [null]. *)
Definition optionalChain (v : value) (rest : value -> outcome value) : outcome value :=
  match v with
  | VUndefined | VNull => Ok VUndefined
  | _ => rest v
  end.

(** What [fetch] resolves to: the [ok] flag, the status, and what
    [response.json()] yields. *)
Record response : Type := Response {
  ok : bool;
  httpStatus : Z;
  json : outcome value
}.

Definition optimizeRequest (originalPrompt : string) : request :=
  {| reqUrl := POLLINATIONS_API_URL; reqMethod := "POST";
     reqHeaders := {[ "Content-Type" := "application/json" ]};
     reqBody := Some (VObj
       [("model", VStr "openai-fast");
        ("messages", VArr
           [VObj [("role", VStr "system"); ("content", VStr systemPrompt)];
            VObj [("role", VStr "user"); ("content", VStr originalPrompt)]]);
        ("stream", VBool false)]) |}.

(** [data.choices?.[0]?.message?.content] *)
Definition replyContent (data : value) : outcome value :=
  choices ← getProp data "choices";
  first ← optionalChain choices (fun c => getIndex c 0);
  message ← optionalChain first (fun f => getProp f "message");
  optionalChain message (fun m => getProp m "content").

(** The request sent, and what the call resolves to, for what [fetch]
    yields (a throw where the call fails). *)
Definition optimizePrompt (fetched : outcome response) (originalPrompt : string)
  : request * outcome value :=
  (optimizeRequest originalPrompt,
   rethrow (
     resp ← fetched;
     if negb (ok resp)
     then Throw (Error ("HTTP error! status: " ++ pretty (httpStatus resp)))
     else
       data ← json resp;
       content ← replyContent data;
       mret (if truthyValue content then content else VStr originalPrompt))).

End Prompt.

(** ** The handlers of [App] *)

Module App.

Import Adapter Tracker.

(** *** The prompt history of the session *)

(** [p !== trimmed], negated: only a string can be strictly equal to one. *)
Definition isString (v : value) (s : string) : bool :=
  match v with
  | VStr x => String.eqb x s
  | _ => false
  end.

(** [[trimmed, ...currentHistory.filter(p => p !== trimmed)].slice(0, 50)] *)
Definition newPromptHistory (trimmed : string) (currentHistory : list value) : list value :=
  take 50 (VStr trimmed :: List.filter (fun p => negb (isString p trimmed)) currentHistory).

Section WithParser.

Variable JSON_parse : string -> option value.

(** The [try] block: the parsed text of the storage, the empty array
    when there is none or when it does not parse. *)
Definition readPromptHistory (saved : option string) : value :=
  match saved with
  | Some text =>
      if truthyString text then default (VArr []) (JSON_parse text) else VArr []
  | None => VArr []
  end.

(** [saved] is what [sessionStorage.getItem('prompt_history')] gives. The
    result is the value handed to [JSON.stringify] and stored, [None]
    when nothing is stored; a stored text that is not an array has no
    [filter] to call. *)
Definition addToPromptHistory (saved : option string) (text : string)
  : outcome (option value) :=
  let trimmed := trim text in
  if negb (truthyString trimmed) then Ok None
  else match readPromptHistory saved with
       | VArr currentHistory => Ok (Some (VArr (newPromptHistory trimmed currentHistory)))
       | _ => Throw TypeError
       end.

End WithParser.

(** *** The seed of a generation *)

(** [parseInt(s, 10)]: as [parseInt], with no hexadecimal prefix. *)
Definition parseIntRadix10 (s : string) : number :=
  let s1 := trimStart s in
  let '(sign, s2) :=
    match s1 with
    | String "-" r => (-1, r)
    | String "+" r => (1, r)
    | _ => (1, s1)
    end in
  match readDigits 10 None s2 with
  | Some m => integerNumber sign m
  | None => NaN
  end.

(** [seed.trim() === '' ? undefined : parseInt(seed, 10)] *)
Definition seedNumber (seed : string) : option number :=
  if String.eqb (trim seed) EmptyString then None else Some (parseIntRadix10 seed).

(** *** The persisted settings *)

Definition providers : list string := ["huggingface"; "gitee"; "modelscope"].

(** [providers.includes(saved)] *)
Definition includes (options : list string) (saved : option string) : bool :=
  match saved with
  | Some s => existsb (String.eqb s) options
  | None => false
  end.

Definition initialProvider (ls : storage) : string :=
  match ls with
  | None => "huggingface"
  | Some items =>
      match items !! "app_provider" with
      | Some saved => if includes providers (Some saved) then saved else "huggingface"
      | None => "huggingface"
      end
  end.

(** [(saved as AspectRatioOption) || '1:1'] *)
Definition initialAspectRatio (ls : storage) : string :=
  match getItem ls "app_aspect_ratio" with
  | Some saved => if truthyString saved then saved else "1:1"
  | None => "1:1"
  end.

(** [saved === 'true'] *)
Definition initialEnableHD (ls : storage) : bool :=
  match getItem ls "app_enable_hd" with
  | Some saved => String.eqb saved "true"
  | None => false
  end.

(** [String(enableHD)] *)
Definition booleanString (b : bool) : string := if b then "true" else "false".

(** The four effects that save the settings, in the order they run. *)
Definition saveSettings (provider model aspectRatio : string) (enableHD : bool)
    (items : gmap string string) : gmap string string :=
  <[ "app_enable_hd" := booleanString enableHD ]>
    (<[ "app_aspect_ratio" := aspectRatio ]>
       (<[ "app_model" := model ]>
          (<[ "app_provider" := provider ]> items))).

(** *** Selecting and deleting *)

(** The state of [App] that the two handlers set: the state of the
    tracker and the flags of the preview. *)
Record ViewState : Type := {
  core : AppState;
  showInfo : bool;
  imageDimensions : option dimensions;
  isComparing : bool;
  tempUpscaledImage : option string
}.

(** [image.videoUrl && image.videoStatus === 'success'] *)
Definition hasVideo (image : Img.t) : bool :=
  truthyOptString (Img.videoUrl image) && optStringEqb (Img.videoStatus image) "success".

Definition handleHistorySelect (image : Img.t) (vs : ViewState) : ViewState :=
  {| core := {| history := history (core vs); currentImage := Some image;
                isLiveMode := hasVideo image; error := None |};
     showInfo := false; imageDimensions := None;
     isComparing := false; tempUpscaledImage := None |}.

Definition handleDelete (vs : ViewState) : ViewState :=
  match currentImage (core vs) with
  | None => vs
  | Some current =>
      let newHistory :=
        List.filter (fun img => negb (String.eqb (Img.id img) (Img.id current)))
          (history (core vs)) in
      {| core :=
           match newHistory with
           | nextImg :: _ =>
               {| history := newHistory; currentImage := Some nextImg;
                  isLiveMode := hasVideo nextImg; error := None |}
           | [] =>
               {| history := newHistory; currentImage := None;
                  isLiveMode := false; error := None |}
           end;
         showInfo := false; imageDimensions := imageDimensions vs;
         isComparing := false; tempUpscaledImage := None |}
  end.

(** *** Starting a video *)







End App.

(** ** Exchanges *)

Module Exchange.

Import Adapter.

(** The job is accepted: the queue answers with a value that can be
    destructured. *)
Definition accepted (env : exchange) : Prop :=
  exists queue event_id,
    queueJson env = Ok queue /\ getProp queue "event_id" = Ok event_id.

End Exchange.

(** ** Line endings *)

Module Lines.

Definition carriageReturn : ascii := "013"%char.

(** A line: a string with no line feed in it. *)
Definition isLine (line : string) : bool :=
  forallb (fun c => negb (Ascii.eqb c newline)) (list_ascii_of_string line).

(** The stream made of the given lines, each ended by CR LF. *)
Definition crlfLines (lines : list string) : string :=
  String.concat (String carriageReturn (String newline EmptyString)) lines.

End Lines.

(** ** Invariants of the state *)

Module Invariants.

Import Tracker.

(** The fields of a record that no video update writes. *)
Definition stillFields (img : Img.t)
  : string * value * string * string * string * Z * value * option string * option string :=
  (Img.id img, Img.url img, Img.model img, Img.prompt img, Img.aspectRatio img,
   Img.timestamp img, Img.seed img, Img.videoTaskId img, Img.videoProvider img).

(** The image on display is the record of the history that has its id. *)
Definition displayedInSync (st : AppState) : Prop :=
  forall c item,
    currentImage st = Some c -> item ∈ history st -> Img.id item = Img.id c -> item = c.

(** The image on display is a record of the history. *)
Definition displayedInHistory (st : AppState) : Prop :=
  match currentImage st with
  | Some c => c ∈ history st
  | None => True
  end.

(** An answer that ends a task: a failure, or a success with its URL. *)
Definition isFinal (r : TaskStatus) : bool :=
  String.eqb (status r) "failed"
  || (String.eqb (status r) "success" && truthyOptString (statusVideoUrl r)).

(** A text of white space only (the empty text among them). *)
Definition isBlank (text : string) : bool :=
  forallb isWhiteSpace (list_ascii_of_string text).

End Invariants.

(** ** More worked inputs *)

Module Scenarios.

Import Sse Json Adapter Tracker Prompt App Examples.

(** The lines of a stream with one complete event. *)
Definition completeLines : list string :=
  ["event: heartbeat"; "data: null"; "event: complete"; "data: [1]"; EmptyString].

(** An exchange whose enqueue request fails. *)
Definition refusedExchange : exchange :=
  {| storageAtEnqueue := None; storageAtResult := None;
     queueJson := Throw (Error "Failed to fetch");
     responseText := Ok seedEchoStream;
     randomUUID := "0b9f6d0e-7c57-4a53-9a1e-2f1c3f6e8a11";
     dateNow := 1700000000000; randomSeed := 7 |}.

(** An accepted job whose stream is the given one. *)
Definition exchangeWith (stream : string) : exchange :=
  {| storageAtEnqueue := None; storageAtResult := None;
     queueJson := Ok (VObj [("event_id", VStr "e1")]);
     responseText := Ok stream;
     randomUUID := "0b9f6d0e-7c57-4a53-9a1e-2f1c3f6e8a11";
     dateNow := 1700000000000; randomSeed := 7 |}.

(** A reply of the queue that carries a detail and no event id. *)
Definition noEventIdExchange : exchange :=
  {| storageAtEnqueue := None; storageAtResult := None;
     queueJson := Ok (VObj [("detail", VStr "Not Found")]);
     responseText := Ok seedEchoStream;
     randomUUID := "0b9f6d0e-7c57-4a53-9a1e-2f1c3f6e8a11";
     dateNow := 1700000000000; randomSeed := 7 |}.

(** A stream whose data reports the seed as a number. *)
Definition numberSeedStream : string :=
  unlines ["event: complete";
           "data: [{" ++ quoted "url" ++ ": " ++ quoted "https://h.example/x.png" ++ "}, 42]"].

(** An ok reply of the optimizer whose first choice has an empty content. *)
Definition emptyContentFields : list (string * value) :=
  [("choices", VArr [VObj [("message", VObj [("content", VStr EmptyString)])]])].

Definition emptyContentReply : response :=
  {| ok := true; httpStatus := 200; json := Ok (VObj emptyContentFields) |}.

(** Every task has failed. *)
Definition failingService (taskId : string) : outcome TaskStatus :=
  Ok {| status := "failed"; statusVideoUrl := None; statusError := Some "out of memory" |}.

(** Every task reports success and no URL. *)
Definition noUrlService (taskId : string) : outcome TaskStatus :=
  Ok {| status := "success"; statusVideoUrl := None; statusError := None |}.

(** The prompt history that the session holds: two prompts. *)
Definition savedPrompts : string :=
  "[" ++ quoted "a cat" ++ ", " ++ quoted "a dog" ++ "]".

(** The view on the worked state of the tracker. *)
Definition trackerView : ViewState :=
  {| core := trackerState; showInfo := true; imageDimensions := None;
     isComparing := false; tempUpscaledImage := None |}.


(** The stream of a generation whose echo names a seed beyond 2^53. *)
Definition largeSeedStream : string :=
  unlines ["event: complete";
           "data: [{" ++ quoted "url" ++ ": " ++ quoted "https://h.example/x.png" ++ "}, "
             ++ quoted "Seed used for generation: 9007199254740993" ++ "]"].

(** A complete event with its data line, then a complete event with no
    data line. *)
Definition completeThenBareComplete : string :=
  unlines ["event: complete"; "data: [1]"; "event: complete"].

(** One pending record. *)
Definition slowState : AppState :=
  {| history := [recordA]; currentImage := None; isLiveMode := false; error := None |}.

(** Every task has succeeded. *)
Definition succeedingService (taskId : string) : outcome TaskStatus :=
  Ok {| status := "success"; statusVideoUrl := Some "https://v.example/a.mp4";
        statusError := None |}.

(** A finished record that carries the id of [recordA]. *)
Definition recordA' : Img.t :=
  record "a" (Some "success") (Some "t2") (Some "https://v.example/b.mp4").

(** A pending record that carries the id of [recordA]. *)
Definition recordA'' : Img.t := record "a" (Some "generating") (Some "t3") None.

(** A history in which a pending and a finished record share an id. *)
Definition finishedTwinState : AppState :=
  {| history := [recordA; recordA']; currentImage := None;
     isLiveMode := false; error := None |}.

(** A history in which two pending records share an id. *)
Definition pendingTwinState : AppState :=
  {| history := [recordA; recordA'']; currentImage := None;
     isLiveMode := false; error := None |}.

(** The poll of [t1] throws, every other task has failed. *)
Definition twinService (taskId : string) : outcome TaskStatus :=
  if String.eqb taskId "t1" then Throw (Error "Failed to fetch")
  else Ok {| status := "failed"; statusVideoUrl := None;
             statusError := Some "out of memory" |}.

End Scenarios.

(** * Properties *)

(** ** The event stream *)

Section SseProperties.

Import Sse Json.

Variable JSON_parse : string -> option value.

Lemma scanLines_eventBlocks (lines : list string) (flag : bool) :
  scanLines JSON_parse flag lines =
  match flag, List.find isDataLine (fst (eventBlocks lines)) with
  | true, Some line => parsedPayload JSON_parse (dataPayload line)
  | _, _ => scanBlocks JSON_parse (snd (eventBlocks lines))
  end.
Proof.
  revert flag. induction lines as [|line rest IH]; intros flag.
  - by destruct flag.
  - cbn [scanLines eventBlocks].
    destruct (eventBlocks rest) as [pre blocks] eqn:Hrest.
    cbn [fst snd] in IH.
    unfold isEventLine. destruct (startsWith "event:" line) eqn:Hev.
    + cbn [fst snd List.find scanBlocks].
      unfold isComplete, isError, firstData. cbn [header body].
      destruct (String.eqb (eventType line) "complete").
      * rewrite IH. by destruct (List.find isDataLine pre), flag.
      * destruct (String.eqb (eventType line) "error"); [by destruct flag|].
        rewrite IH. by destruct flag.
    + cbn [fst snd List.find]. unfold isDataLine at 1.
      destruct (startsWith "data:" line) eqn:Hdata.
      * destruct flag; cbn [andb].
        -- unfold parsedPayload. by destruct (JSON_parse (dataPayload line)).
        -- by rewrite IH.
      * rewrite andb_false_l. by rewrite IH.
Qed.

(** The loop of the adapter reads the stream block by block. *)
Lemma extract_scanBlocks (sseStream : string) :
  extractCompleteEventData JSON_parse sseStream =
  scanBlocks JSON_parse (blocksOf sseStream).
Proof.
  unfold extractCompleteEventData, blocksOf.
  by rewrite scanLines_eventBlocks.
Qed.

Lemma isError_not_complete (b : block) : isError b = true -> isComplete b = false.
Proof.
  unfold isError, isComplete. intros H%String.eqb_eq. by rewrite H.
Qed.

(** Blocks that are neither an error nor a complete event with a data
    line are passed over. *)
Lemma scanBlocks_skip (pre later : list block) :
  Forall (fun x => isError x = false) pre ->
  Forall (fun x => isCompleteWithData x = false) pre ->
  scanBlocks JSON_parse (pre ++ later) = scanBlocks JSON_parse later.
Proof.
  induction pre as [|x pre IH]; intros Herr Hdata; [done|].
  inversion Herr as [|? ? Hx Herr']; subst.
  inversion Hdata as [|? ? Hy Hdata']; subst.
  cbn [app scanBlocks]. unfold isCompleteWithData, hasData in Hy.
  rewrite Hx. destruct (isComplete x); cbn [andb] in Hy.
  - destruct (firstData x) as [d|] eqn:Hd; [|by apply IH].
    exfalso. apply bool_decide_eq_false in Hy. apply Hy. by eexists.
  - by apply IH.
Qed.

(** Up to the first error event, only a complete event with a data line
    stops the loop. *)
Lemma scanBlocks_error (pre later : list block) (b : block) :
  Forall (fun x => isCompleteWithData x = false) pre ->
  isError b = true ->
  scanBlocks JSON_parse (pre ++ b :: later) = Throw (Error quotaMessage).
Proof.
  intros Hdata Hb. induction pre as [|x pre IH].
  - cbn [app scanBlocks]. by rewrite (isError_not_complete b Hb), Hb.
  - inversion Hdata as [|? ? Hy Hdata']; subst.
    cbn [app scanBlocks]. unfold isCompleteWithData, hasData in Hy.
    destruct (isComplete x); cbn [andb] in Hy.
    + destruct (firstData x) as [d|] eqn:Hd; [|by apply IH].
      exfalso. apply bool_decide_eq_false in Hy. apply Hy. by eexists.
    + destruct (isError x); [done|by apply IH].
Qed.

Lemma completePayloads_skip (pre later : list block) :
  Forall (fun x => isCompleteWithData x = false) pre ->
  omap (fun b => if isComplete b then firstData b else None) (pre ++ later)%list =
  omap (fun b => if isComplete b then firstData b else None) later.
Proof.
  induction pre as [|x pre IH]; intros Hdata; [done|].
  inversion Hdata as [|? ? Hy Hdata']; subst.
  cbn [app omap list_omap]. unfold isCompleteWithData, hasData in Hy.
  destruct (isComplete x); cbn [andb] in Hy; [|by apply IH].
  destruct (firstData x) as [d|] eqn:Hd; [|by apply IH].
  exfalso. apply bool_decide_eq_false in Hy. apply Hy. by eexists.
Qed.

(** C1 (as amended): in a stream whose complete events are followed by
    data lines, the payload that is parsed and returned is the one of the
    first complete event with a data line, whatever comes after it,
    provided no error event comes before it. A payload that does not
    parse is returned as null. *)
Theorem first_complete_event_is_returned
    (sseStream : string) (pre later : list block) (b : block) (payload : string) :
  blocksOf sseStream = (pre ++ b :: later)%list ->
  Forall (fun x => isError x = false) pre ->
  Forall (fun x => isCompleteWithData x = false) pre ->
  isComplete b = true ->
  firstData b = Some payload ->
  head (completePayloads sseStream) = Some payload /\
  extractCompleteEventData JSON_parse sseStream = Ok (default VNull (JSON_parse payload)).
Proof.
  intros Hblocks Herr Hdata Hb Hpayload. split.
  - unfold completePayloads. rewrite Hblocks, completePayloads_skip by done.
    cbn [omap list_omap]. by rewrite Hb, Hpayload.
  - rewrite extract_scanBlocks, Hblocks, scanBlocks_skip by done.
    cbn [scanBlocks]. by rewrite Hb, Hpayload.
Qed.

(** C2 (as amended): an error event makes the parse fail with the
    quota-exceeded error whenever no complete event with a data line comes
    before it, whatever events (complete ones, with or without data
    lines, among them) come after it. *)
Theorem error_event_throws_quota_error
    (sseStream : string) (pre later : list block) (b : block) :
  blocksOf sseStream = (pre ++ b :: later)%list ->
  Forall (fun x => isCompleteWithData x = false) pre ->
  isError b = true ->
  extractCompleteEventData JSON_parse sseStream = Throw (Error quotaMessage).
Proof.
  intros Hblocks Hdata Hb.
  rewrite extract_scanBlocks, Hblocks. by apply scanBlocks_error.
Qed.

(** C6 (as amended): a stream with no error event in which no complete
    event is followed by a data line parses to no result (null); nothing
    is thrown. *)
Theorem complete_without_data_is_null (sseStream : string) :
  Forall (fun x => isError x = false) (blocksOf sseStream) ->
  Forall (fun x => isCompleteWithData x = false) (blocksOf sseStream) ->
  extractCompleteEventData JSON_parse sseStream = Ok VNull.
Proof.
  intros Herr Hdata. rewrite extract_scanBlocks.
  rewrite <- (app_nil_r (blocksOf sseStream)).
  by rewrite scanBlocks_skip.
Qed.

(** The only error the parse throws is the quota-exceeded one: a payload
    that is not JSON is logged and null is returned. *)
Lemma extract_throws_only_quota (sseStream : string) (e : error) :
  extractCompleteEventData JSON_parse sseStream = Throw e -> e = Error quotaMessage.
Proof.
  rewrite extract_scanBlocks.
  induction (blocksOf sseStream) as [|b later IH]; cbn [scanBlocks]; [done|].
  destruct (isComplete b).
  - destruct (firstData b); [done|exact IH].
  - destruct (isError b); [congruence|exact IH].
Qed.

End SseProperties.

Section SseExamples.

Import Sse Json Examples Scenarios.

(** C1 (as stated) fails: of two complete events with data lines [1] and
    [2], the adapter returns the payload of the first, not of the last. *)
Lemma last_complete_counterexample :
  (2 <= List.length (List.filter isComplete (blocksOf twoCompletes)))%nat /\
  Forall (fun b => hasData b = true) (List.filter isComplete (blocksOf twoCompletes)) /\
  last (completePayloads twoCompletes) = Some "[2]" /\
  parseJSON "[2]" = Some (VArr [VNum (Int 2)]) /\
  extractCompleteEventData parseJSON twoCompletes = Ok (VArr [VNum (Int 1)]) /\
  extractCompleteEventData parseJSON twoCompletes <> Ok (VArr [VNum (Int 2)]).
Proof.
  repeat split; try reflexivity.
  - vm_compute. repeat constructor.
  - vm_compute. discriminate.
Qed.

Lemma first_complete_event_is_returned_witness :
  head (completePayloads twoCompletes) = Some "[1]" /\
  extractCompleteEventData parseJSON twoCompletes
  = Ok (default VNull (parseJSON "[1]")).
Proof.
  apply (first_complete_event_is_returned parseJSON twoCompletes []
           [Block "event: complete" ["data: [2]"]]
           (Block "event: complete" ["data: [1]"]) "[1]").
  - reflexivity.
  - constructor.
  - constructor.
  - reflexivity.
  - reflexivity.
Defined.

(** C2 (as stated) fails: a stream with an error event after a complete
    event with a data line parses to that event's payload; nothing is
    thrown. *)
Lemma error_anywhere_counterexample :
  Exists (fun b => isError b = true) (blocksOf completeThenError) /\
  extractCompleteEventData parseJSON completeThenError = Ok (VArr [VNum (Int 1)]) /\
  extractCompleteEventData parseJSON completeThenError <> Throw (Error quotaMessage).
Proof.
  repeat split.
  - vm_compute. right. left. reflexivity.
  - vm_compute. discriminate.
Qed.

Lemma error_event_throws_quota_error_witness :
  extractCompleteEventData parseJSON errorThenComplete = Throw (Error quotaMessage).
Proof.
  apply (error_event_throws_quota_error parseJSON errorThenComplete
           [Block "event: heartbeat" ["data: null"]]
           [Block "event: complete" ["data: [1]"]]
           (Block "event: error" ["data: null"])).
  - reflexivity.
  - repeat constructor.
  - reflexivity.
Defined.

(** C6 (as stated) fails: a stream with no error event that holds a
    complete event with no data line after it, behind a complete event
    with the data line [1], parses to that payload, not to null. *)
Lemma bare_complete_counterexample :
  Exists (fun b => isComplete b = true /\ hasData b = false)
    (blocksOf completeThenBareComplete) /\
  Forall (fun b => isError b = false) (blocksOf completeThenBareComplete) /\
  extractCompleteEventData parseJSON completeThenBareComplete = Ok (VArr [VNum (Int 1)]) /\
  extractCompleteEventData parseJSON completeThenBareComplete <> Ok VNull.
Proof.
  repeat split.
  - vm_compute. right. left. by split.
  - vm_compute. repeat constructor.
  - vm_compute. discriminate.
Qed.

Lemma complete_without_data_is_null_witness :
  extractCompleteEventData parseJSON completeNoData = Ok VNull.
Proof.
  apply (complete_without_data_is_null parseJSON completeNoData).
  - vm_compute. repeat constructor.
  - vm_compute. repeat constructor.
Defined.

End SseExamples.

(** ** The task tracker *)

Section TrackerProperties.

Import Tracker.

Variable getGiteeTaskStatus : string -> outcome TaskStatus.

Local Abbreviation pollTask := (Tracker.pollTask getGiteeTaskStatus).
Local Abbreviation pollCycle := (Tracker.pollCycle getGiteeTaskStatus).
Local Abbreviation cycleUpdates := (Tracker.cycleUpdates getGiteeTaskStatus).

Lemma pollTask_updateId (img : Img.t) (u : Update) :
  snd (pollTask img) = Some u -> updateId u = Img.id img.
Proof.
  unfold Tracker.pollTask. destruct (Img.videoTaskId img) as [tid|]; [|done].
  destruct (truthyString tid); [|done]. cbn [snd].
  destruct (getGiteeTaskStatus tid) as [r|]; [|done].
  destruct (_ || _); [|done]. by intros [= <-].
Qed.

Lemma pending_taskId (img : Img.t) :
  isPendingVideo img = true ->
  exists tid, Img.videoTaskId img = Some tid /\ truthyString tid = true.
Proof.
  unfold isPendingVideo, truthyOptString. intros H.
  apply andb_prop in H as [H _]. apply andb_prop in H as [_ H].
  destruct (Img.videoTaskId img) as [tid|]; [|done]. by exists tid.
Qed.

(** What the poll of a pending record issues and resolves to. *)
Lemma pollTask_pending (img : Img.t) :
  isPendingVideo img = true ->
  fst (pollTask img) = [ownTaskId img] /\
  applyUpdates (option_list (snd (pollTask img))) img
  = reconcile (getGiteeTaskStatus (ownTaskId img)) img.
Proof.
  intros (tid & Htid & Htruthy)%pending_taskId.
  unfold Tracker.pollTask, ownTaskId, reconcile. rewrite Htid, Htruthy.
  cbn [fst snd from_option id]. split; [done|].
  destruct (getGiteeTaskStatus tid) as [r|e]; [|done].
  unfold applyUpdates, findUpdate, failureMessage.
  destruct (String.eqb (status r) "success") eqn:Hs.
  - cbn [orb]. unfold option_list.
    cbn [option_rect List.find updateId updateStatus updateVideoUrl].
    rewrite String.eqb_refl. cbn [updateStatus updateVideoUrl updateError].
    rewrite Hs. cbn [andb].
    destruct (truthyOptString (statusVideoUrl r)); [done|].
    apply String.eqb_eq in Hs. by rewrite Hs.
  - cbn [orb]. destruct (String.eqb (status r) "failed") eqn:Hf; [|done].
    unfold option_list.
    cbn [option_rect List.find updateId updateStatus updateVideoUrl updateError].
    rewrite String.eqb_refl. cbn [updateStatus updateVideoUrl updateError andb].
    by rewrite Hs, Hf.
Qed.

(** Among updates of records with distinct ids, the one found for an id
    is the one of the record with that id. *)
Lemma findUpdate_polled (pending : list Img.t) (id : string) :
  NoDup (List.map Img.id pending) ->
  findUpdate (omap (fun u => u) (List.map snd (List.map pollTask pending))) id
  = match List.find (fun x => String.eqb (Img.id x) id) pending with
    | Some x => snd (pollTask x)
    | None => None
    end.
Proof.
  induction pending as [|x pending IH]; intros Hnd; [done|].
  cbn [List.map] in Hnd. apply NoDup_cons in Hnd as [Hx Hnd].
  cbn [List.map omap list_omap List.find].
  destruct (snd (pollTask x)) as [u|] eqn:Hu.
  - unfold findUpdate. cbn [List.find].
    rewrite (pollTask_updateId x u Hu).
    destruct (String.eqb (Img.id x) id); [done|]. by apply IH.
  - rewrite IH by done.
    destruct (String.eqb (Img.id x) id) eqn:Hid; [|done].
    apply String.eqb_eq in Hid. subst id.
    destruct (List.find _ pending) as [y|] eqn:Hy; [|done].
    apply List.find_some in Hy as [Hin Heq]. apply String.eqb_eq in Heq.
    exfalso. apply Hx. rewrite <- Heq. apply list_elem_of_In.
    by apply List.in_map.
Qed.

Lemma find_filter_unique (hist : list Img.t) (item : Img.t) :
  NoDup (List.map Img.id hist) ->
  item ∈ hist ->
  List.find (fun x => String.eqb (Img.id x) (Img.id item)) (List.filter isPendingVideo hist)
  = if isPendingVideo item then Some item else None.
Proof.
  induction hist as [|x hist IH]; intros Hnd Hin; [by apply elem_of_nil in Hin|].
  cbn [List.map] in Hnd. apply NoDup_cons in Hnd as [Hx Hnd].
  assert (Hfresh : forall y, y ∈ hist -> String.eqb (Img.id x) (Img.id y) = false).
  { intros y Hy. apply String.eqb_neq. intros Heq. apply Hx. rewrite Heq.
    apply list_elem_of_In, List.in_map. by apply list_elem_of_In. }
  assert (Hnone : List.find (fun y => String.eqb (Img.id y) (Img.id x))
                    (List.filter isPendingVideo hist) = None).
  { clear IH Hin.
    destruct (List.find _ _) as [y|] eqn:Hy; [|done].
    apply List.find_some in Hy as [Hy Heq]. apply List.filter_In in Hy as [Hy _].
    apply list_elem_of_In in Hy. apply Hfresh in Hy.
    rewrite String.eqb_sym in Heq. congruence. }
  apply elem_of_cons in Hin as [->|Hin].
  - cbn [List.filter]. destruct (isPendingVideo x) eqn:Hp.
    + cbn [List.find]. by rewrite String.eqb_refl.
    + exact Hnone.
  - cbn [List.filter]. destruct (isPendingVideo x) eqn:Hp.
    + cbn [List.find]. rewrite (Hfresh item Hin). by apply IH.
    + by apply IH.
Qed.

(** With distinct ids, the function mapped over the history does to
    each record what the outcome of its own poll dictates. *)
Lemma applyUpdates_own (hist : list Img.t) (item : Img.t) :
  NoDup (List.map Img.id hist) ->
  item ∈ hist ->
  applyUpdates (cycleUpdates hist) item
  = if isPendingVideo item
    then reconcile (getGiteeTaskStatus (ownTaskId item)) item
    else item.
Proof.
  intros Hnd Hin. unfold Tracker.cycleUpdates, applyUpdates.
  assert (Hnd' : NoDup (List.map Img.id (List.filter isPendingVideo hist))).
  { clear Hin. induction hist as [|x hist IH]; [constructor|].
    cbn [List.map] in Hnd. apply NoDup_cons in Hnd as [Hx Hnd].
    cbn [List.filter]. destruct (isPendingVideo x); [|by apply IH].
    cbn [List.map]. apply NoDup_cons. split; [|by apply IH].
    intros Hin. apply Hx. apply list_elem_of_In in Hin.
    apply List.in_map_iff in Hin as (y & Hy & Hin).
    apply List.filter_In in Hin as [Hin _].
    apply list_elem_of_In, List.in_map_iff. by exists y. }
  rewrite findUpdate_polled, find_filter_unique by done.
  destruct (isPendingVideo item) eqn:Hp; [|done].
  destruct (pollTask_pending item Hp) as [_ <-].
  unfold applyUpdates.
  destruct (snd (pollTask item)) as [u|] eqn:Hu; [|done].
  unfold option_list, findUpdate. cbn [option_rect List.find].
  by rewrite (pollTask_updateId item u Hu), String.eqb_refl.
Qed.

Lemma syncCurrent_history (us : list Update) (st : AppState) (hist : list Img.t) :
  history (syncCurrent us st hist) = hist.
Proof.
  unfold syncCurrent. destruct (currentImage st) as [c|]; [|done].
  destruct (findUpdate us (Img.id c)) as [u|]; [|done].
  destruct (_ && _); [done|]. by destruct (String.eqb _ _).
Qed.

Lemma applyUpdates_nil (item : Img.t) : applyUpdates [] item = item.
Proof. done. Qed.

(** Whatever the branch the callback takes, the history after the cycle
    is the history before it with the function of [setHistory] mapped
    over it. *)
Lemma pollCycle_history_map (st : AppState) :
  history (snd (pollCycle st))
  = List.map (applyUpdates (cycleUpdates (history st))) (history st).
Proof.
  unfold Tracker.pollCycle, Tracker.cycleUpdates.
  destruct (List.filter isPendingVideo (history st)) as [|p pending] eqn:Hp.
  - cbn [List.length Nat.eqb snd List.map omap list_omap].
    rewrite (List.map_ext _ (fun x => x) applyUpdates_nil). by rewrite List.map_id.
  - cbn [List.length Nat.eqb snd].
    destruct (omap _ _) as [|u us] eqn:Hu.
    + cbn [List.length Nat.ltb Nat.leb].
      rewrite (List.map_ext _ (fun x => x) applyUpdates_nil). by rewrite List.map_id.
    + cbn [List.length Nat.ltb Nat.leb]. by rewrite syncCurrent_history.
Qed.

(** The history after a cycle, record by record. *)
Lemma pollCycle_history (st : AppState) :
  NoDup (List.map Img.id (history st)) ->
  history (snd (pollCycle st))
  = List.map (fun item => if isPendingVideo item
                          then reconcile (getGiteeTaskStatus (ownTaskId item)) item
                          else item) (history st).
Proof.
  intros Hnd. rewrite pollCycle_history_map. apply List.map_ext_in.
  intros item Hin. apply applyUpdates_own; [done|]. by apply list_elem_of_In.
Qed.

(** The polls of a cycle: the task ids of the pending videos, in order. *)
Lemma pollCycle_polls (st : AppState) :
  fst (pollCycle st) = List.map ownTaskId (List.filter isPendingVideo (history st)).
Proof.
  unfold Tracker.pollCycle.
  assert (Hall : Forall (fun x => isPendingVideo x = true)
                   (List.filter isPendingVideo (history st))).
  { apply List.Forall_forall. intros x Hx. by apply List.filter_In in Hx as [_ Hx]. }
  destruct (List.filter isPendingVideo (history st)) as [|p pending]; [done|].
  cbn [List.length Nat.eqb fst]. revert Hall.
  generalize (p :: pending). intros l Hall.
  induction Hall as [|x l Hx _ IH]; [done|].
  cbn [List.map List.concat]. rewrite IH.
  by destruct (pollTask_pending x Hx) as [-> _].
Qed.

Lemma reconcile_id (reply : outcome TaskStatus) (item : Img.t) :
  Img.id (reconcile reply item) = Img.id item.
Proof.
  unfold reconcile. destruct reply as [r|]; [|done].
  destruct (String.eqb (status r) "success").
  - by destruct (truthyOptString _).
  - by destruct (String.eqb (status r) "failed").
Qed.

Lemma orDefaultMessage_truthy (e : option string) :
  truthyString (orDefaultMessage e) = true.
Proof.
  unfold orDefaultMessage. destruct e as [m|]; [|done].
  by destruct (truthyString m) eqn:Hm.
Qed.

(** The three things a poll outcome can do to a record. *)
Lemma reconcile_cases (reply : outcome TaskStatus) (item : Img.t) :
  reconcile reply item = item
  \/ (exists url, truthyString url = true /\ reconcile reply item = withSuccess item (Some url))
  \/ (exists msg, truthyString msg = true /\ reconcile reply item = withFailure item msg).
Proof.
  unfold reconcile. destruct reply as [r|]; [|by left].
  destruct (String.eqb (status r) "success").
  - destruct (statusVideoUrl r) as [url|]; [|by left].
    cbn [truthyOptString]. destruct (truthyString url) eqn:Hurl; [|by left].
    right. left. by exists url.
  - destruct (String.eqb (status r) "failed"); [|by left].
    right. right. eexists. split; [apply orDefaultMessage_truthy|done].
Qed.

Lemma reconcile_nonterminal (r : TaskStatus) (item : Img.t) :
  isNonTerminal r = true -> reconcile (Ok r) item = item.
Proof.
  unfold isNonTerminal, reconcile. intros H%negb_true_iff.
  apply orb_false_elim in H as [-> ->]. done.
Qed.

Lemma pending_generating (item : Img.t) :
  isPendingVideo item = true -> isGenerating item = true.
Proof.
  unfold isPendingVideo, isGenerating. intros H.
  apply andb_prop in H as [H _]. by apply andb_prop in H as [H _].
Qed.

Lemma terminal_not_pending (item : Img.t) :
  isTerminal item = true -> isPendingVideo item = false.
Proof.
  unfold isTerminal, isPendingVideo, optStringEqb.
  destruct (Img.videoStatus item) as [s|]; [|done].
  intros [H|H]%orb_prop; apply String.eqb_eq in H; by subst s.
Qed.

Lemma lookup_map {A B : Type} (f : A -> B) (l : list A) (i : nat) :
  List.map f l !! i = f <$> l !! i.
Proof.
  revert i. induction l as [|x l IH]; intros [|i]; try done. apply IH.
Qed.

(** The record at a position after a cycle. *)
Lemma pollCycle_lookup (st : AppState) (i : nat) (item : Img.t) :
  NoDup (List.map Img.id (history st)) ->
  history st !! i = Some item ->
  history (snd (pollCycle st)) !! i
  = Some (if isPendingVideo item
          then reconcile (getGiteeTaskStatus (ownTaskId item)) item
          else item).
Proof.
  intros Hnd Hi. by rewrite pollCycle_history, lookup_map, Hi.
Qed.

(** A cycle keeps the ids, and with them their distinctness. *)
Lemma pollCycle_ids (st : AppState) :
  NoDup (List.map Img.id (history st)) ->
  List.map Img.id (history (snd (pollCycle st))) = List.map Img.id (history st).
Proof.
  intros Hnd. rewrite pollCycle_history by done. rewrite List.map_map.
  apply List.map_ext. intros item.
  destruct (isPendingVideo item); [apply reconcile_id|done].
Qed.

(** *** The resumption of a callback *)

(** The atomic cycle is the resumption on the state that was read. *)
Lemma pollCycle_landUpdates (st : AppState) :
  snd (pollCycle st) = landUpdates (cycleUpdates (history st)) st.
Proof.
  unfold Tracker.pollCycle, Tracker.cycleUpdates, landUpdates.
  destruct (List.filter isPendingVideo (history st)) as [|p pending]; [done|].
  by cbn [List.length Nat.eqb snd].
Qed.

Lemma landUpdates_history (us : list Update) (prev : AppState) :
  history (landUpdates us prev) = List.map (applyUpdates us) (history prev).
Proof.
  unfold landUpdates. destruct us as [|u us].
  - cbn [List.length Nat.ltb Nat.leb].
    rewrite (List.map_ext _ (fun x => x) applyUpdates_nil). by rewrite List.map_id.
  - cbn [List.length Nat.ltb Nat.leb]. by rewrite syncCurrent_history.
Qed.

(** A record for whose id the callback holds no update is left as it is,
    whatever the state the callback resumes on. *)
Lemma landUpdates_untouched (us : list Update) (prev : AppState) (j : nat)
    (record : Img.t) :
  findUpdate us (Img.id record) = None ->
  history prev !! j = Some record ->
  history (landUpdates us prev) !! j = Some record.
Proof.
  intros Hnone Hj. rewrite landUpdates_history, lookup_map, Hj.
  cbn [fmap option_fmap option_map]. unfold applyUpdates. by rewrite Hnone.
Qed.

Lemma filter_ids_NoDup (hist : list Img.t) :
  NoDup (List.map Img.id hist) ->
  NoDup (List.map Img.id (List.filter isPendingVideo hist)).
Proof.
  induction hist as [|x hist IH]; intros Hnd; [constructor|].
  cbn [List.map] in Hnd. apply NoDup_cons in Hnd as [Hx Hnd].
  cbn [List.filter]. destruct (isPendingVideo x); [|by apply IH].
  cbn [List.map]. apply NoDup_cons. split; [|by apply IH].
  intros Hin. apply Hx. apply list_elem_of_In in Hin.
  apply List.in_map_iff in Hin as (y & Hy & Hin).
  apply List.filter_In in Hin as [Hin _].
  apply list_elem_of_In, List.in_map_iff. by exists y.
Qed.

(** A poll that throws, or that reports a status that is not terminal,
    resolves to no update. *)
Lemma pollTask_no_update (img : Img.t) :
  (exists e, getGiteeTaskStatus (ownTaskId img) = Throw e)
  \/ (exists r, getGiteeTaskStatus (ownTaskId img) = Ok r /\ isNonTerminal r = true) ->
  snd (pollTask img) = None.
Proof.
  unfold Tracker.pollTask, ownTaskId, isNonTerminal.
  destruct (Img.videoTaskId img) as [tid|]; [|done].
  destruct (truthyString tid); [|done]. cbn [snd from_option id].
  intros [[e ->]|(r & -> & Hr)]; [done|].
  apply negb_true_iff in Hr. by rewrite Hr.
Qed.

(** With distinct ids in the history that a callback read, the callback
    holds no update for the id of a record that was not pending, or whose
    poll resolved to no update. *)
Lemma cycleUpdates_none (hist : list Img.t) (item : Img.t) :
  NoDup (List.map Img.id hist) ->
  item ∈ hist ->
  isPendingVideo item = false \/ snd (pollTask item) = None ->
  findUpdate (cycleUpdates hist) (Img.id item) = None.
Proof.
  intros Hnd Hin Hcase. unfold Tracker.cycleUpdates.
  rewrite findUpdate_polled by (by apply filter_ids_NoDup).
  rewrite find_filter_unique by done.
  destruct (isPendingVideo item); [|done].
  destruct Hcase as [Hcase|Hcase]; [done|exact Hcase].
Qed.

End TrackerProperties.

Section TrackerClaims.

Import Tracker Invariants.

Implicit Types (service : string -> outcome TaskStatus) (st : AppState).

Lemma runCycles_ids (services : list (string -> outcome TaskStatus)) st :
  NoDup (List.map Img.id (history st)) ->
  List.map Img.id (history (runCycles services st)) = List.map Img.id (history st).
Proof.
  revert st. induction services as [|service later IH]; intros st Hnd; [done|].
  cbn [runCycles]. rewrite IH; rewrite pollCycle_ids; done.
Qed.

(** Once terminal, a record stays as it is through every later cycle. *)
Lemma runCycles_terminal (services : list (string -> outcome TaskStatus)) st
    (i : nat) (item : Img.t) :
  NoDup (List.map Img.id (history st)) ->
  history st !! i = Some item ->
  isTerminal item = true ->
  history (runCycles services st) !! i = Some item.
Proof.
  revert st. induction services as [|service later IH]; intros st Hnd Hi Hterm; [done|].
  cbn [runCycles]. apply IH; [by rewrite pollCycle_ids| |done].
  rewrite (pollCycle_lookup service st i item) by done.
  by rewrite (terminal_not_pending item Hterm).
Qed.

(** The runs in which no two callbacks overlap, and the one in which
    two do, as runs of events. *)
Lemma runCycles_runEvents (services : list (string -> outcome TaskStatus)) st :
  runEvents (List.flat_map (fun service => [Fires service; Resumes 0]) services) (idle st)
  = idle (runCycles services st).
Proof.
  revert st. induction services as [|service later IH]; intros st; [done|].
  cbn [List.flat_map runCycles]. rewrite pollCycle_landUpdates. apply IH.
Qed.

Lemma overlappedCycles_runEvents service1 service2 st :
  runEvents [Fires service1; Fires service2; Resumes 0; Resumes 0] (idle st)
  = idle (overlappedCycles service1 service2 st).
Proof. done. Qed.

Lemma landUpdates_ids (us : list Update) (prev : AppState) :
  List.map Img.id (history (landUpdates us prev)) = List.map Img.id (history prev).
Proof.
  rewrite landUpdates_history, List.map_map. apply List.map_ext. intros record.
  unfold applyUpdates. destruct (findUpdate us (Img.id record)) as [u|]; [|done].
  destruct (_ && _); [done|]. by destruct (String.eqb _ _).
Qed.

(** Once a record is terminal and no callback in flight holds an update
    for its id, nothing that the tracker does changes it, however the
    callbacks that fire from then on overlap. *)
Lemma runEvents_terminal (events : list Event) (r : Running) (i : nat) (item : Img.t) :
  NoDup (List.map Img.id (history (appState r))) ->
  history (appState r) !! i = Some item ->
  isTerminal item = true ->
  Forall (fun us => findUpdate us (Img.id item) = None) (inFlight r) ->
  history (appState (runEvents events r)) !! i = Some item.
Proof.
  revert r. induction events as [|ev events IH]; intros r Hnd Hi Hterm Hfl; [done|].
  cbn [runEvents List.fold_left]. apply IH; clear IH; try done.
  - destruct ev as [service|k]; cbn [step appState]; [done|].
    destruct (inFlight r !! k); [|done]. cbn [appState]. by rewrite landUpdates_ids.
  - destruct ev as [service|k]; cbn [step appState]; [done|].
    destruct (inFlight r !! k) as [us|] eqn:Hk; [|done]. cbn [appState].
    apply landUpdates_untouched; [|done].
    by apply (proj1 (Forall_lookup _ _) Hfl k us).
  - destruct ev as [service|k]; cbn [step inFlight].
    + apply Forall_app. split; [done|]. constructor; [|constructor].
      apply cycleUpdates_none; [done| |left; by apply terminal_not_pending].
      by eapply list_elem_of_lookup_2.
    + destruct (inFlight r !! k); [|done]. cbn [inFlight]. by apply Forall_delete.
Qed.

(** What a callback does to a record when it resumes, whatever the
    updates it holds and whatever the record: nothing, or it sets the
    status to success and the URL, or the status to failed and the error
    message; no other field is written. *)
Lemma applyUpdates_cases (us : list Update) (record : Img.t) :
  stillFields (applyUpdates us record) = stillFields record
  /\ (applyUpdates us record = record
      \/ (exists url, truthyString url = true
            /\ Img.videoStatus (applyUpdates us record) = Some "success"
            /\ Img.videoUrl (applyUpdates us record) = Some url
            /\ Img.videoError (applyUpdates us record) = Img.videoError record)
      \/ (exists msg, truthyString msg = true
            /\ Img.videoStatus (applyUpdates us record) = Some "failed"
            /\ Img.videoError (applyUpdates us record) = Some msg
            /\ Img.videoUrl (applyUpdates us record) = Img.videoUrl record)).
Proof.
  unfold applyUpdates. destruct (findUpdate us (Img.id record)) as [u|]; [|by split; [|left]].
  destruct (String.eqb (updateStatus u) "success") eqn:Hs.
  - destruct (updateVideoUrl u) as [url|]; cbn [andb truthyOptString].
    + destruct (truthyString url) eqn:Hurl.
      * split; [done|]. right. left. by exists url.
      * destruct (String.eqb (updateStatus u) "failed"); [|by split; [|left]].
        split; [done|]. right. right. exists (failureMessage u).
        split; [apply orDefaultMessage_truthy|done].
    + destruct (String.eqb (updateStatus u) "failed"); [|by split; [|left]].
      split; [done|]. right. right. exists (failureMessage u).
      split; [apply orDefaultMessage_truthy|done].
  - cbn [andb]. destruct (String.eqb (updateStatus u) "failed"); [|by split; [|left]].
    split; [done|]. right. right. exists (failureMessage u).
    split; [apply orDefaultMessage_truthy|done].
Qed.

(** C3 (as amended): in a history whose records have distinct ids, a
    poll cycle that resumes on the history it read leaves a record as it
    is, or moves a record from generating to success with the result URL
    that its poll reported, or moves it from generating to failed with
    the error message that its poll reported (a default message when it
    reported none), and touches no other field. A record that is in a
    terminal status when a cycle reads the history is not mutated by
    that cycle, whatever the state on which the cycle resumes; so, when
    no callback is in flight, no cycle that fires from then on mutates
    it, however the callbacks overlap. A record whose poll reports a
    status that is not terminal is not mutated by the cycle either,
    whatever the state on which the cycle resumes. And on whatever state
    a cycle resumes, all it does to a record is to leave it, or to set
    its status to success with a URL, or to failed with an error
    message. *)
Theorem task_record_transitions service st (i : nat) (item : Img.t) :
  NoDup (List.map Img.id (history st)) ->
  history st !! i = Some item ->
  let updates := cycleUpdates service (history st) in
  (exists item',
      history (snd (pollCycle service st)) !! i = Some item'
      /\ stillFields item' = stillFields item
      /\ (item' = item
          \/ (Img.videoStatus item = Some "generating"
              /\ exists r url,
                  service (ownTaskId item) = Ok r
                  /\ status r = "success"
                  /\ statusVideoUrl r = Some url /\ truthyString url = true
                  /\ Img.videoStatus item' = Some "success"
                  /\ Img.videoUrl item' = Some url
                  /\ Img.videoError item' = Img.videoError item)
          \/ (Img.videoStatus item = Some "generating"
              /\ exists r msg,
                  service (ownTaskId item) = Ok r
                  /\ status r = "failed"
                  /\ truthyString msg = true
                  /\ (statusError r = Some msg \/ msg = "Video generation failed")
                  /\ Img.videoStatus item' = Some "failed"
                  /\ Img.videoError item' = Some msg
                  /\ Img.videoUrl item' = Img.videoUrl item)))
  /\ (isTerminal item = true ->
      (forall prev j record,
          history prev !! j = Some record -> Img.id record = Img.id item ->
          history (landUpdates updates prev) !! j = Some record)
      /\ (forall services, history (runCycles services st) !! i = Some item)
      /\ forall events, history (appState (runEvents events (idle st))) !! i = Some item)
  /\ (forall r, service (ownTaskId item) = Ok r -> isNonTerminal r = true ->
      forall prev j record,
        history prev !! j = Some record -> Img.id record = Img.id item ->
        history (landUpdates updates prev) !! j = Some record)
  /\ (forall prev j record,
        history prev !! j = Some record ->
        exists record',
          history (landUpdates updates prev) !! j = Some record'
          /\ stillFields record' = stillFields record
          /\ (record' = record
              \/ (exists url, truthyString url = true
                    /\ Img.videoStatus record' = Some "success"
                    /\ Img.videoUrl record' = Some url
                    /\ Img.videoError record' = Img.videoError record)
              \/ (exists msg, truthyString msg = true
                    /\ Img.videoStatus record' = Some "failed"
                    /\ Img.videoError record' = Some msg
                    /\ Img.videoUrl record' = Img.videoUrl record))).
Proof.
  intros Hnd Hi. cbn zeta.
  assert (Hin : item ∈ history st) by (by eapply list_elem_of_lookup_2).
  split; [|split; [|split]]; [| | |intros prev j record Hj; eexists;
    split; [by rewrite landUpdates_history, lookup_map, Hj|apply applyUpdates_cases]].
  - eexists. split; [by apply pollCycle_lookup|].
    destruct (isPendingVideo item) eqn:Hp; [|by split; [|left]].
    assert (Hgen : Img.videoStatus item = Some "generating").
    { apply pending_generating in Hp. unfold isGenerating, optStringEqb in Hp.
      destruct (Img.videoStatus item) as [x|]; [|done].
      apply String.eqb_eq in Hp. by subst x. }
    unfold reconcile. destruct (service (ownTaskId item)) as [r|e] eqn:Hr; [|by split; [|left]].
    destruct (String.eqb (status r) "success") eqn:Hs.
    + apply String.eqb_eq in Hs.
      destruct (statusVideoUrl r) as [url|] eqn:Hurl; [|by split; [|left]].
      cbn [truthyOptString]. destruct (truthyString url) eqn:Htruthy; [|by split; [|left]].
      split; [done|]. right. left. split; [done|]. by exists r, url.
    + destruct (String.eqb (status r) "failed") eqn:Hf; [|by split; [|left]].
      apply String.eqb_eq in Hf.
      split; [done|]. right. right. split; [done|].
      exists r, (orDefaultMessage (statusError r)).
      split; [done|]. split; [done|]. split; [apply orDefaultMessage_truthy|].
      split; [|done]. unfold orDefaultMessage.
      destruct (statusError r) as [m|]; [|by right].
      destruct (truthyString m); [by left|by right].
  - intros Hterm. split; [|split].
    + intros prev j record Hj Hid. apply landUpdates_untouched; [|done].
      rewrite Hid. apply cycleUpdates_none; [done..|].
      left. by apply terminal_not_pending.
    + intros services. by apply runCycles_terminal.
    + intros events. by apply runEvents_terminal.
  - intros r Hr Hnon prev j record Hj Hid. apply landUpdates_untouched; [|done].
    rewrite Hid. apply cycleUpdates_none; [done..|].
    right. apply pollTask_no_update. right. by exists r.
Qed.

(** C4: a cycle issues exactly one poll per pending record, with that
    record's task id and in the order of the history; a record in a
    terminal status is not among the pending ones; and a cycle with no
    pending record issues no poll and leaves the state as it is. *)
Theorem one_poll_per_pending_record service st :
  let pending := List.filter isPendingVideo (history st) in
  let polls := fst (pollCycle service st) in
  List.length polls = List.length pending
  /\ Forall2 (fun taskId img => Img.videoTaskId img = Some taskId) polls pending
  /\ (forall img, isTerminal img = true -> img ∉ pending)
  /\ (pending = [] -> polls = [] /\ snd (pollCycle service st) = st).
Proof.
  cbn zeta. rewrite pollCycle_polls. split; [by rewrite List.length_map|].
  split; [|split].
  - assert (Hall : Forall (fun x => isPendingVideo x = true)
                     (List.filter isPendingVideo (history st))).
    { apply List.Forall_forall. intros x Hx. by apply List.filter_In in Hx as [_ Hx]. }
    induction Hall as [|x l Hx _ IH]; [constructor|].
    cbn [List.map]. constructor; [|exact IH].
    apply pending_taskId in Hx as (tid & Htid & _).
    unfold ownTaskId. by rewrite Htid.
  - intros img Hterm Hin. apply list_elem_of_In, List.filter_In in Hin as [_ Hin].
    rewrite (terminal_not_pending img Hterm) in Hin. done.
  - intros Hnil. rewrite Hnil. split; [done|].
    unfold pollCycle. by rewrite Hnil.
Qed.

(** C5 (as amended): in a history whose records have distinct ids, when
    the poll of a pending record throws, the cycle leaves that record as
    it is (its status stays generating, it is not set to failed), whatever
    the state on which the cycle resumes, and the next cycle polls it
    again. The updates of the other records are still applied: a pending
    record whose poll reports success with a result URL gets the status
    success and that URL, one whose poll reports failed gets the status
    failed and the reported error message (a default message when none is
    reported), and every other record is left as it is. What the records
    with another task id get does not depend on the outcome of the
    failing poll. *)
Theorem failed_poll_is_isolated service st (i : nat) (item : Img.t) (e : Js.error) :
  NoDup (List.map Img.id (history st)) ->
  history st !! i = Some item ->
  isPendingVideo item = true ->
  service (ownTaskId item) = Throw e ->
  let updates := cycleUpdates service (history st) in
  let st' := snd (pollCycle service st) in
  history st' !! i = Some item
  /\ Img.videoStatus item = Some "generating"
  /\ (forall prev j record,
        history prev !! j = Some record -> Img.id record = Img.id item ->
        history (landUpdates updates prev) !! j = Some record)
  /\ (forall service', ownTaskId item ∈ fst (pollCycle service' st'))
  /\ (forall j other r url,
        history st !! j = Some other -> isPendingVideo other = true ->
        service (ownTaskId other) = Ok r ->
        status r = "success" -> statusVideoUrl r = Some url -> truthyString url = true ->
        exists other',
          history st' !! j = Some other'
          /\ Img.videoStatus other' = Some "success"
          /\ Img.videoUrl other' = Some url
          /\ Img.videoError other' = Img.videoError other
          /\ stillFields other' = stillFields other)
  /\ (forall j other r,
        history st !! j = Some other -> isPendingVideo other = true ->
        service (ownTaskId other) = Ok r ->
        status r = "failed" ->
        exists other',
          history st' !! j = Some other'
          /\ Img.videoStatus other' = Some "failed"
          /\ Img.videoError other'
             = Some (match statusError r with
                     | Some m => if truthyString m then m else "Video generation failed"
                     | None => "Video generation failed"
                     end)
          /\ Img.videoUrl other' = Img.videoUrl other
          /\ stillFields other' = stillFields other)
  /\ (forall j other,
        history st !! j = Some other ->
        isPendingVideo other = false
        \/ (exists e', service (ownTaskId other) = Throw e')
        \/ (exists r, service (ownTaskId other) = Ok r /\ isFinal r = false) ->
        history st' !! j = Some other)
  /\ (forall service2 j other,
        (forall taskId, taskId <> ownTaskId item -> service2 taskId = service taskId) ->
        history st !! j = Some other ->
        ownTaskId other <> ownTaskId item ->
        history (snd (pollCycle service2 st)) !! j = history st' !! j).
Proof.
  intros Hnd Hi Hp He. cbn zeta.
  assert (Hin : item ∈ history st) by (by eapply list_elem_of_lookup_2).
  assert (Hsame : history (snd (pollCycle service st)) !! i = Some item).
  { rewrite (pollCycle_lookup service st i item) by done. by rewrite Hp, He. }
  split; [exact Hsame|]. split.
  { apply pending_generating in Hp. unfold isGenerating, optStringEqb in Hp.
    destruct (Img.videoStatus item) as [x|]; [|done].
    apply String.eqb_eq in Hp. by subst x. }
  split; [|split; [|split; [|split; [|split]]]].
  - intros prev j record Hj Hid. apply landUpdates_untouched; [|done].
    rewrite Hid. apply cycleUpdates_none; [done..|].
    right. apply pollTask_no_update. left. by exists e.
  - intros service'. rewrite pollCycle_polls.
    apply list_elem_of_In, List.in_map, List.filter_In. split; [|done].
    apply list_elem_of_In. by eapply list_elem_of_lookup_2.
  - intros j other r url Hj Hpo Hr Hs Hurl Htruthy. eexists.
    split; [by apply pollCycle_lookup|].
    rewrite Hpo, Hr. unfold reconcile. rewrite Hs, Hurl. cbn [String.eqb truthyOptString].
    by rewrite Htruthy.
  - intros j other r Hj Hpo Hr Hf. eexists.
    split; [by apply pollCycle_lookup|].
    rewrite Hpo, Hr. unfold reconcile. rewrite Hf. done.
  - intros j other Hj Hcase.
    rewrite (pollCycle_lookup service st j other) by done.
    destruct (isPendingVideo other); [|done].
    destruct Hcase as [?|[[e' ->]|(r & -> & Hr)]]; [done|done|].
    unfold isFinal in Hr. apply orb_false_elim in Hr as [Hf Hs].
    unfold reconcile. rewrite Hf.
    destruct (String.eqb (status r) "success"); [|done].
    cbn [andb] in Hs. by rewrite Hs.
  - intros service2 j other Hagree Hj Hne.
    rewrite (pollCycle_lookup service st j other),
            (pollCycle_lookup service2 st j other) by done.
    by rewrite Hagree.
Qed.

End TrackerClaims.

(** ** The job adapter *)

Section SeedEcho.

(** *** Reading back a decimal numeral *)

Lemma digitValue_pretty (d : N) :
  (d < 10)%N -> digitValue 10 (pretty_N_char d) = Some (Z.of_N d).
Proof.
  intros Hd.
  assert (H : (d = 0 \/ d = 1 \/ d = 2 \/ d = 3 \/ d = 4 \/ d = 5 \/ d = 6
               \/ d = 7 \/ d = 8 \/ d = 9)%N) by lia.
  repeat (destruct H as [->|H]; [reflexivity|]). by subst d.
Qed.

(** The digits that [pretty] writes for a positive number are read back
    as that number, on top of what was read before them. *)
Lemma readDigits_pretty_go (x : N) :
  (0 < x)%N ->
  exists p : Z, forall (acc : option Z) (s : string),
    readDigits 10 acc (pretty_N_go x s)
    = readDigits 10 (Some (p * default 0 acc + Z.of_N x)) s.
Proof.
  induction (N.lt_wf_0 x) as [x _ IH]. intros Hpos.
  assert (Hmod : (x `mod` 10 < 10)%N) by (apply N.mod_lt; lia).
  pose proof (N.div_mod x 10 ltac:(lia)) as Hdm.
  destruct (decide (x `div` 10 = 0)%N) as [Hz|Hnz].
  - exists 10. intros acc s.
    rewrite pretty_N_go_step, Hz, pretty_N_go_0 by done.
    cbn [readDigits]. rewrite digitValue_pretty by done.
    do 2 f_equal. destruct acc; cbn [from_option id]; lia.
  - destruct (IH (x `div` 10)%N) as [p Hp]; [|lia|].
    { apply N.div_lt; lia. }
    exists (10 * p). intros acc s.
    rewrite pretty_N_go_step, Hp by done.
    cbn [readDigits]. rewrite digitValue_pretty by done.
    do 2 f_equal. lia.
Qed.

(** They start with a digit from 1 to 9. *)
Lemma pretty_go_head (x : N) :
  (0 < x)%N ->
  forall s, exists d r, (1 <= d <= 9)%N /\ pretty_N_go x s = String (pretty_N_char d) r.
Proof.
  induction (N.lt_wf_0 x) as [x _ IH]. intros Hpos s.
  assert (Hmod : (x `mod` 10 < 10)%N) by (apply N.mod_lt; lia).
  pose proof (N.div_mod x 10 ltac:(lia)) as Hdm.
  rewrite pretty_N_go_step by done.
  destruct (decide (x `div` 10 = 0)%N) as [Hz|Hnz].
  - rewrite Hz, pretty_N_go_0. exists (x `mod` 10)%N, s. split; [lia|done].
  - apply IH; [apply N.div_lt; lia|lia].
Qed.

(** No rounding takes place up to 2^53. *)
Lemma nearestDouble_exact (m : Z) :
  0 <= m <= 2 ^ 53 -> nearestDouble m = Some m.
Proof.
  intros Hm. unfold nearestDouble.
  destruct (m <? 2 ^ 53) eqn:Hlt; [done|].
  apply Z.ltb_ge in Hlt. assert (m = 2 ^ 53) as -> by lia.
  vm_compute. reflexivity.
Qed.

Lemma integerNumber_exact (sign m : Z) :
  0 <= m <= 2 ^ 53 -> integerNumber sign m = Int (sign * m).
Proof. intros Hm. unfold integerNumber. by rewrite nearestDouble_exact. Qed.

Lemma parseInt_leading_digit (d : N) (r : string) :
  (1 <= d <= 9)%N ->
  parseInt (String (pretty_N_char d) r)
  = match readDigits 10 None (String (pretty_N_char d) r) with
    | Some m => integerNumber 1 m
    | None => NaN
    end
  /\ parseInt (String "-" (String (pretty_N_char d) r))
  = match readDigits 10 None (String (pretty_N_char d) r) with
    | Some m => integerNumber (-1) m
    | None => NaN
    end.
Proof.
  intros Hd.
  assert (H : (d = 1 \/ d = 2 \/ d = 3 \/ d = 4 \/ d = 5 \/ d = 6
               \/ d = 7 \/ d = 8 \/ d = 9)%N) by lia.
  repeat (destruct H as [->|H]; [split; reflexivity|]). subst d. split; reflexivity.
Qed.

(** [parseInt] reads the decimal numeral of an integer back, as long as
    the integer is one that a double holds without rounding. *)
Lemma parseInt_pretty (n : Z) :
  Z.abs n <= 2 ^ 53 -> parseInt (pretty n) = Int n.
Proof.
  intros Hn. destruct n as [|q|q]; [reflexivity| |].
  - change (pretty (Z.pos q)) with (pretty_N_go (N.pos q) EmptyString).
    destruct (pretty_go_head (N.pos q) ltac:(lia) EmptyString) as (d & r & Hd & Heq).
    destruct (readDigits_pretty_go (N.pos q) ltac:(lia)) as [p Hp].
    rewrite Heq. rewrite (proj1 (parseInt_leading_digit d r Hd)).
    rewrite <- Heq, Hp. cbn [readDigits from_option].
    rewrite integerNumber_exact by lia. f_equal. lia.
  - change (pretty (Z.neg q))
      with (String "-" (pretty_N_go (N.pos q) EmptyString)).
    destruct (pretty_go_head (N.pos q) ltac:(lia) EmptyString) as (d & r & Hd & Heq).
    destruct (readDigits_pretty_go (N.pos q) ltac:(lia)) as [p Hp].
    rewrite Heq. rewrite (proj2 (parseInt_leading_digit d r Hd)).
    rewrite <- Heq, Hp. cbn [readDigits from_option].
    rewrite integerNumber_exact by lia. f_equal. lia.
Qed.

Lemma replace_unfold (pat rep s : string) :
  replace pat rep s
  = if String.prefix pat s then rep ++ substringFrom (String.length pat) s
    else match s with
         | EmptyString => EmptyString
         | String c r => String c (replace pat rep r)
         end.
Proof. by destruct s. Qed.

Lemma prefix_app (p t : string) : String.prefix p (p ++ t) = true.
Proof.
  induction p as [|c p IH]; [by destruct t|].
  change (String.prefix (String c p) (String c (p ++ t)) = true).
  cbn [String.prefix]. destruct (ascii_dec c c); [exact IH|done].
Qed.

Lemma substringFrom_app (p t : string) : substringFrom (String.length p) (p ++ t) = t.
Proof. induction p as [|c p IH]; [done|exact IH]. Qed.

(** A string that starts with the pattern loses it. *)
Lemma replace_prefix (pat t : string) : replace pat EmptyString (pat ++ t) = t.
Proof. by rewrite replace_unfold, prefix_app, substringFrom_app. Qed.

(** The echo of the backend, read back. *)
Lemma parseSeedEcho_echo (n : Z) :
  Z.abs n <= 2 ^ 53 ->
  Adapter.parseSeedEcho (VStr ("Seed used for generation: " ++ pretty n))
  = Ok (VNum (Int n)).
Proof.
  intros Hn. unfold Adapter.parseSeedEcho.
  by rewrite replace_prefix, parseInt_pretty.
Qed.

End SeedEcho.

Section AdapterClaims.

Import Sse Adapter.

Variable JSON_parse : string -> option value.

(** The data that an exchange ends with, when the job is accepted and the
    stream is read. *)
Lemma queueAndFetch_data (env : exchange) (enqueue : request) (resultUrl : string)
    (queue event_id : value) (text : string) :
  queueJson env = Ok queue ->
  getProp queue "event_id" = Ok event_id ->
  responseText env = Ok text ->
  snd (queueAndFetch JSON_parse env enqueue resultUrl)
  = extractCompleteEventData JSON_parse text.
Proof.
  intros Hq He Ht. unfold queueAndFetch. by rewrite Hq, He, Ht.
Qed.

Lemma generateQwenImage_result (env : exchange) (prompt aspectRatio : string)
    (seed : option number) :
  snd (generateQwenImage JSON_parse env prompt aspectRatio seed)
  = rethrow (
      data ← snd (queueAndFetch JSON_parse env
                    (enqueueRequest env
                       (QWEN_IMAGE_BASE_API_URL ++ "/gradio_api/call/generate_image")
                       [VStr prompt; VNum (qwenSeedSlot seed); VBool (qwenRandomize seed);
                        VStr aspectRatio; num 3; num 8])
                    (QWEN_IMAGE_BASE_API_URL ++ "/gradio_api/call/generate_image/"));
      first ← getIndex data 0;
      u ← getProp first "url";
      second ← getIndex data 1;
      parsed ← parseSeedEcho second;
      mret {| Img.id := randomUUID env; Img.url := u; Img.model := "qwen-image-fast";
              Img.prompt := prompt; Img.aspectRatio := aspectRatio;
              Img.timestamp := dateNow env; Img.seed := parsed;
              Img.videoStatus := None; Img.videoTaskId := None;
              Img.videoProvider := None; Img.videoUrl := None;
              Img.videoError := None |}).
Proof.
  unfold generateQwenImage. by destruct (queueAndFetch _ _ _ _).
Qed.

Lemma generateZImage_result (env : exchange) (prompt aspectRatio : string)
    (seedArg : option number) (enableHD : bool) :
  exists enqueue,
  snd (generateZImage JSON_parse env prompt aspectRatio seedArg enableHD)
  = rethrow (
      data ← snd (queueAndFetch JSON_parse env enqueue
                    (ZIMAGE_BASE_API_URL ++ "/gradio_api/call/generate_image/"));
      first ← getIndex data 0;
      u ← getProp first "url";
      second ← getIndex data 1;
      mret {| Img.id := randomUUID env; Img.url := u; Img.model := "z-image-turbo";
              Img.prompt := prompt; Img.aspectRatio := aspectRatio;
              Img.timestamp := dateNow env; Img.seed := second;
              Img.videoStatus := None; Img.videoTaskId := None;
              Img.videoProvider := None; Img.videoUrl := None;
              Img.videoError := None |}).
Proof.
  unfold generateZImage. destruct (getZImageDimensions _ _) as [w h].
  exists (enqueueRequest env
            (ZIMAGE_BASE_API_URL ++ "/gradio_api/call/generate_image")
            [VStr prompt; num h; num w; num 8;
             VNum (default (Int (randomSeed env)) seedArg); VBool false]).
  by destruct (queueAndFetch _ _ _ _).
Qed.

(** C7 (as amended): in an exchange that ends well (the job is accepted,
    the stream holds a complete event whose data has an image and a second
    element), the qwen-image-fast path stores the integer N when that
    element is the string "Seed used for generation: N" and N is at most
    2^53 in absolute value (the integers a JavaScript number holds
    without rounding), and the z-image-turbo path stores the element as
    the backend reports it. *)
Theorem stored_seed (env : exchange) (prompt aspectRatio : string)
    (seed : option number) (enableHD : bool)
    (queue event_id data first u second : value) (text : string) :
  queueJson env = Ok queue ->
  getProp queue "event_id" = Ok event_id ->
  responseText env = Ok text ->
  extractCompleteEventData JSON_parse text = Ok data ->
  getIndex data 0 = Ok first ->
  getProp first "url" = Ok u ->
  getIndex data 1 = Ok second ->
  (forall n : Z,
      Z.abs n <= 2 ^ 53 ->
      second = VStr ("Seed used for generation: " ++ pretty n) ->
      exists img,
        snd (generateQwenImage JSON_parse env prompt aspectRatio seed) = Ok img
        /\ Img.url img = u /\ Img.seed img = VNum (Int n))
  /\ (exists img,
        snd (generateZImage JSON_parse env prompt aspectRatio seed enableHD) = Ok img
        /\ Img.url img = u /\ Img.seed img = second).
Proof.
  intros Hq He Ht Hdata Hfirst Hu Hsecond. split.
  - intros n Hn ->. eexists.
    rewrite generateQwenImage_result.
    rewrite (queueAndFetch_data env _ _ queue event_id text) by done.
    rewrite Hdata. cbn [mbind outcome_bind Js.bind].
    rewrite Hfirst. cbn [mbind outcome_bind Js.bind].
    rewrite Hu. cbn [mbind outcome_bind Js.bind].
    rewrite Hsecond. cbn [mbind outcome_bind Js.bind].
    rewrite parseSeedEcho_echo by done.
    cbn [mbind outcome_bind Js.bind mret outcome_ret rethrow].
    done.
  - destruct (generateZImage_result env prompt aspectRatio seed enableHD) as [enq ->].
    eexists.
    rewrite (queueAndFetch_data env _ _ queue event_id text) by done.
    rewrite Hdata. cbn [mbind outcome_bind Js.bind].
    rewrite Hfirst. cbn [mbind outcome_bind Js.bind].
    rewrite Hu. cbn [mbind outcome_bind Js.bind].
    rewrite Hsecond. cbn [mbind outcome_bind Js.bind mret outcome_ret rethrow].
    done.
Qed.

(** *** Headers *)

Lemma getAuthHeaders_specified (ls : storage) : headersAsSpecified ls (getAuthHeaders ls).
Proof.
  unfold headersAsSpecified, getAuthHeaders.
  destruct (getItem ls "huggingFaceToken") as [token|]; [|by split].
  destruct (truthyString token); [|by split].
  split; [by rewrite lookup_insert_ne|by rewrite lookup_insert_eq].
Qed.

Lemma queueAndFetch_headers (env : exchange) (url resultUrl : string) (data : list value)
    (i : nat) (r : request) :
  fst (queueAndFetch JSON_parse env (enqueueRequest env url data) resultUrl) !! i = Some r ->
  exists ls, sendStorages env !! i = Some ls /\ reqHeaders r = getAuthHeaders ls.
Proof.
  unfold queueAndFetch, sendStorages.
  destruct (queueJson env) as [queue|e].
  - destruct (getProp queue "event_id") as [event_id|e].
    + destruct i as [|[|i]]; cbn; intros [= <-]; eauto.
    + destruct i as [|i]; cbn; [intros [= <-]; eauto|done].
  - destruct i as [|i]; cbn; [intros [= <-]; eauto|done].
Qed.

(** C8: every request that a call of the adapter sends to an enqueue or a
    result endpoint carries the JSON content type, and carries
    "Authorization: Bearer <token>" exactly when the storage holds a token
    (one that is not empty) at the time the request is sent. *)
Theorem bearer_token_on_every_request (env : exchange)
    (model prompt aspectRatio url : string) (seed : option number) (enableHD : bool)
    (i : nat) (r : request) :
  fst (generateZImage JSON_parse env prompt aspectRatio seed enableHD) !! i = Some r
  \/ fst (generateQwenImage JSON_parse env prompt aspectRatio seed) !! i = Some r
  \/ fst (generateImage JSON_parse env model prompt aspectRatio seed enableHD) !! i = Some r
  \/ fst (upscaler JSON_parse env url) !! i = Some r ->
  exists ls, sendStorages env !! i = Some ls /\ headersAsSpecified ls (reqHeaders r).
Proof.
  assert (Hz : forall p a s h,
    fst (generateZImage JSON_parse env p a s h) !! i = Some r ->
    exists ls, sendStorages env !! i = Some ls /\ reqHeaders r = getAuthHeaders ls).
  { intros p a s h. unfold generateZImage.
    destruct (getZImageDimensions a h) as [wd ht].
    destruct (queueAndFetch _ _ _ _) as [sent fetched] eqn:Hqf. cbn [fst].
    replace sent with (fst (sent, fetched)) by done. rewrite <- Hqf.
    apply queueAndFetch_headers. }
  assert (Hq : forall p a s,
    fst (generateQwenImage JSON_parse env p a s) !! i = Some r ->
    exists ls, sendStorages env !! i = Some ls /\ reqHeaders r = getAuthHeaders ls).
  { intros p a s. unfold generateQwenImage.
    destruct (queueAndFetch _ _ _ _) as [sent fetched] eqn:Hqf. cbn [fst].
    replace sent with (fst (sent, fetched)) by done. rewrite <- Hqf.
    apply queueAndFetch_headers. }
  intros [H|[H|[H|H]]].
  - apply Hz in H as (ls & Hls & ->). exists ls. split; [done|apply getAuthHeaders_specified].
  - apply Hq in H as (ls & Hls & ->). exists ls. split; [done|apply getAuthHeaders_specified].
  - unfold generateImage in H. destruct (String.eqb model "qwen-image-fast").
    + apply Hq in H as (ls & Hls & ->). exists ls.
      split; [done|apply getAuthHeaders_specified].
    + apply Hz in H as (ls & Hls & ->). exists ls.
      split; [done|apply getAuthHeaders_specified].
  - unfold upscaler in H.
    destruct (queueAndFetch _ _ _ _) as [sent fetched] eqn:Hqf. cbn [fst] in H.
    replace sent with (fst (sent, fetched)) in H by done. rewrite <- Hqf in H.
    apply queueAndFetch_headers in H as (ls & Hls & ->). exists ls.
    split; [done|apply getAuthHeaders_specified].
Qed.

(** *** The qwen payload *)

Lemma generateQwenImage_enqueue (env : exchange) (prompt aspectRatio : string)
    (seed : option number) :
  reqBody <$> head (fst (generateQwenImage JSON_parse env prompt aspectRatio seed))
  = Some (Some (VObj [("data",
        VArr [VStr prompt; VNum (qwenSeedSlot seed); VBool (qwenRandomize seed);
              VStr aspectRatio; num 3; num 8])])).
Proof.
  unfold generateQwenImage, queueAndFetch.
  destruct (queueJson env) as [queue|]; [|done].
  by destruct (getProp queue "event_id").
Qed.

(** C9: the enqueue payload of the qwen-image-fast backend carries 42
    with randomize set when no seed is supplied; a supplied seed s with
    randomize unset when s is not zero; and 42, not 0, with randomize
    unset when the supplied seed is 0. *)
Theorem qwen_seed_slot (env : exchange) (prompt aspectRatio : string) :
  let payload seed :=
    reqBody <$> head (fst (generateQwenImage JSON_parse env prompt aspectRatio seed)) in
  let data slot randomize :=
    Some (Some (VObj [("data",
      VArr [VStr prompt; VNum (Int slot); VBool randomize;
            VStr aspectRatio; num 3; num 8])])) in
  payload None = data 42 true
  /\ (forall s : Z, payload (Some (Int s)) = data (if s =? 0 then 42 else s) false)
  /\ payload (Some (Int 0)) = data 42 false.
Proof.
  cbn zeta. split; [|split].
  - apply generateQwenImage_enqueue.
  - intros s. rewrite generateQwenImage_enqueue.
    cbn [qwenSeedSlot qwenRandomize truthyNumber]. by destruct (s =? 0).
  - apply generateQwenImage_enqueue.
Qed.

End AdapterClaims.

Section Dimensions.

Import Adapter.

(** C10: for the options 4:5 and 5:4 the z-image-turbo dimensions are the
    square defaults (1024x1024, 2048x2048 with HD), which do not have the
    requested ratio; for every other option the width and the height
    reduce exactly to the requested ratio, with and without HD. *)
Theorem zimage_dimensions_ratio (ratio : AspectRatioOption) (enableHD : bool) :
  let d := getZImageDimensions (ratioString ratio) enableHD in
  match ratio with
  | R4_5 | R5_4 =>
      d = square enableHD /\ Some (reducedRatio d) <> ratioParts (ratioString ratio)
  | _ => Some (reducedRatio d) = ratioParts (ratioString ratio)
  end.
Proof.
  destruct ratio, enableHD; vm_compute; try reflexivity; split; congruence.
Qed.

End Dimensions.

(** ** The properties on the worked inputs *)

Section AdapterExamples.

Import Sse Json Adapter Examples Scenarios.

(** C7 (as stated) fails on the z-image-turbo path: when the data of the
    complete event echoes "Seed used for generation: 42", the seed that
    is stored is that string, not the integer 42. On the qwen-image-fast
    path it fails beyond 2^53: of the echo "Seed used for generation:
    9007199254740993" the number stored is 9007199254740992. *)
Lemma zimage_seed_counterexample :
  (extractCompleteEventData parseJSON seedEchoStream = Ok echoData
   /\ exists img,
        snd (generateZImage parseJSON echoExchange "a cat" "1:1" (Some (Int 42)) false)
        = Ok img
        /\ Img.seed img = VStr "Seed used for generation: 42"
        /\ Img.seed img <> VNum (Int 42))
  /\ (extractCompleteEventData parseJSON largeSeedStream
      = Ok (VArr [VObj [("url", VStr "https://h.example/x.png")];
                  VStr "Seed used for generation: 9007199254740993"])
      /\ exists img,
           snd (generateQwenImage parseJSON (exchangeWith largeSeedStream) "a cat" "1:1" None)
           = Ok img
           /\ Img.seed img = VNum (Int 9007199254740992)
           /\ Img.seed img <> VNum (Int 9007199254740993)).
Proof.
  split.
  - split; [by vm_compute|].
    eexists. split; [by vm_compute|]. split; [done|discriminate].
  - split; [by vm_compute|].
    eexists. split; [by vm_compute|]. split; [done|discriminate].
Qed.

Lemma stored_seed_witness :
  (exists img,
      snd (generateQwenImage parseJSON echoExchange "a cat" "1:1" (Some (Int 42))) = Ok img
      /\ Img.url img = VStr "https://h.example/x.png"
      /\ Img.seed img = VNum (Int 42))
  /\ (exists img,
      snd (generateZImage parseJSON echoExchange "a cat" "1:1" (Some (Int 42)) false) = Ok img
      /\ Img.url img = VStr "https://h.example/x.png"
      /\ Img.seed img = VStr "Seed used for generation: 42").
Proof.
  destruct (stored_seed parseJSON echoExchange "a cat" "1:1" (Some (Int 42)) false
              (VObj [("event_id", VStr "e1")]) (VStr "e1") echoData
              (VObj [("url", VStr "https://h.example/x.png")])
              (VStr "https://h.example/x.png")
              (VStr "Seed used for generation: 42") seedEchoStream)
    as [Hqwen Hzimage]; try (vm_compute; reflexivity).
  split; [|exact Hzimage].
  apply (Hqwen 42); [by vm_compute|]. vm_compute. reflexivity.
Defined.

Lemma bearer_token_on_every_request_witness :
  exists ls,
    sendStorages echoExchange !! 1%nat = Some ls
    /\ headersAsSpecified ls
         (reqHeaders (resultRequest echoExchange
            "https://mcp-tools-qwen-image-fast.hf.space/gradio_api/call/generate_image/e1")).
Proof.
  apply (bearer_token_on_every_request parseJSON echoExchange
           "qwen-image-fast" "a cat" "1:1" "https://h.example/x.png" None false 1
           (resultRequest echoExchange
              "https://mcp-tools-qwen-image-fast.hf.space/gradio_api/call/generate_image/e1")).
  right. left. vm_compute. reflexivity.
Defined.

(** With a token in the storage both requests carry it; with none,
    neither carries an Authorization header. *)
Example headers_with_and_without_token :
  List.map (fun r => reqHeaders r !! "Authorization")
    (fst (generateQwenImage parseJSON echoExchange "a cat" "1:1" None))
  = [Some "Bearer hf_token"; Some "Bearer hf_token"]
  /\ List.map (fun r => reqHeaders r !! "Authorization")
       (fst (upscaler parseJSON anonymousExchange "https://h.example/x.png"))
     = [None; None].
Proof. split; by vm_compute. Qed.

End AdapterExamples.

Section TrackerExamples.

Import Tracker Examples Invariants Scenarios.

(** C3 (as stated) fails. When a poll takes longer than the interval, two
    callbacks read the same history, in which the record is generating;
    the first resumes and moves the record to failed, the second resumes
    after it and moves the record, by then terminal, to success. And in a
    history in which a finished record carries the id of a pending one,
    a single cycle moves the finished record from success to failed. *)
Lemma terminal_record_rewritten_counterexample :
  (NoDup (List.map Img.id (history slowState))
   /\ List.map (fun x => (Img.id x, Img.videoStatus x, Img.videoUrl x, Img.videoError x))
        (history (appState (runEvents
           [Fires failingService; Fires succeedingService; Resumes 0]
           (idle slowState))))
      = [("a", Some "failed", None, Some "out of memory")]
   /\ List.map (fun x => (Img.id x, Img.videoStatus x, Img.videoUrl x, Img.videoError x))
        (history (appState (runEvents
           [Fires failingService; Fires succeedingService; Resumes 0; Resumes 0]
           (idle slowState))))
      = [("a", Some "success", Some "https://v.example/a.mp4", Some "out of memory")]
   /\ overlappedCycles failingService succeedingService slowState
      = appState (runEvents
          [Fires failingService; Fires succeedingService; Resumes 0; Resumes 0]
          (idle slowState)))
  /\ (history finishedTwinState !! 1%nat = Some recordA'
      /\ isTerminal recordA' = true
      /\ List.map (fun x => (Img.id x, Img.videoStatus x, Img.videoUrl x, Img.videoError x))
           (history (snd (pollCycle failingService finishedTwinState)))
         = [("a", Some "failed", None, Some "out of memory");
            ("a", Some "failed", Some "https://v.example/b.mp4", Some "out of memory")]).
Proof.
  split; [split; [|split; [|split]]|split; [|split]]; try reflexivity.
  apply (bool_decide_unpack _). vm_compute. reflexivity.
Qed.

Lemma task_record_transitions_witness :
  (exists item',
      history (snd (pollCycle trackerService trackerState)) !! 2%nat = Some item'
      /\ stillFields item' = stillFields recordC
      /\ (item' = recordC
          \/ (Img.videoStatus recordC = Some "generating"
              /\ exists r url,
                  trackerService (ownTaskId recordC) = Ok r
                  /\ status r = "success"
                  /\ statusVideoUrl r = Some url /\ truthyString url = true
                  /\ Img.videoStatus item' = Some "success"
                  /\ Img.videoUrl item' = Some url
                  /\ Img.videoError item' = Img.videoError recordC)
          \/ (Img.videoStatus recordC = Some "generating"
              /\ exists r msg,
                  trackerService (ownTaskId recordC) = Ok r
                  /\ status r = "failed"
                  /\ truthyString msg = true
                  /\ (statusError r = Some msg \/ msg = "Video generation failed")
                  /\ Img.videoStatus item' = Some "failed"
                  /\ Img.videoError item' = Some msg
                  /\ Img.videoUrl item' = Img.videoUrl recordC)))
  /\ (forall prev j record,
        history prev !! j = Some record -> Img.id record = "b" ->
        history (landUpdates (cycleUpdates trackerService (history trackerState)) prev) !! j
        = Some record)
  /\ (forall services, history (runCycles services trackerState) !! 1%nat = Some recordB)
  /\ (forall events,
        history (appState (runEvents events (idle trackerState))) !! 1%nat = Some recordB).
Proof.
  destruct (task_record_transitions trackerService trackerState 2 recordC)
    as (Hstep & _ & _).
  { apply (bool_decide_unpack _). vm_compute. reflexivity. }
  { reflexivity. }
  destruct (task_record_transitions trackerService trackerState 1 recordB)
    as (_ & Hterminal & _).
  { apply (bool_decide_unpack _). vm_compute. reflexivity. }
  { reflexivity. }
  destruct (Hterminal eq_refl) as (Hland & Hrun & Hevents).
  split; [exact Hstep|]. split; [exact Hland|]. split; [exact Hrun|exact Hevents].
Defined.

Lemma one_poll_per_pending_record_witness :
  fst (pollCycle trackerService trackerState) = ["t1"; "t3"; "t5"]
  /\ List.length (fst (pollCycle trackerService trackerState))
     = List.length (List.filter isPendingVideo (history trackerState))
  /\ pollCycle trackerService idleState = ([], idleState).
Proof.
  destruct (one_poll_per_pending_record trackerService trackerState) as (Hlen & _).
  destruct (one_poll_per_pending_record trackerService idleState) as (_ & _ & _ & Hidle).
  split; [reflexivity|]. split; [exact Hlen|].
  destruct (Hidle eq_refl) as [Hpolls Hstate].
  rewrite (surjective_pairing (pollCycle trackerService idleState)).
  rewrite Hpolls, Hstate. reflexivity.
Defined.

(** C5 (as stated) fails in a history in which two pending records share
    an id: the poll of the first throws, the poll of the second reports
    failed, and the cycle sets both records to failed, so that the next
    cycle polls neither. *)
Lemma failing_record_marked_failed_counterexample :
  history pendingTwinState !! 0%nat = Some recordA
  /\ isPendingVideo recordA = true
  /\ twinService (ownTaskId recordA) = Throw (Error "Failed to fetch")
  /\ List.map (fun x => (Img.id x, Img.videoStatus x, Img.videoError x))
       (history (snd (pollCycle twinService pendingTwinState)))
     = [("a", Some "failed", Some "out of memory");
        ("a", Some "failed", Some "out of memory")]
  /\ forall service',
       fst (pollCycle service' (snd (pollCycle twinService pendingTwinState))) = [].
Proof. repeat split; reflexivity. Qed.

Lemma failed_poll_is_isolated_witness :
  history (snd (pollCycle trackerService trackerState)) !! 0%nat = Some recordA
  /\ Img.videoStatus recordA = Some "generating"
  /\ (forall service', "t1" ∈ fst (pollCycle service' (snd (pollCycle trackerService trackerState))))
  /\ (exists other',
        history (snd (pollCycle trackerService trackerState)) !! 2%nat = Some other'
        /\ Img.videoStatus other' = Some "success"
        /\ Img.videoUrl other' = Some "https://v.example/c.mp4"
        /\ Img.videoError other' = Img.videoError recordC
        /\ stillFields other' = stillFields recordC)
  /\ history (snd (pollCycle trackerService trackerState)) !! 4%nat = Some recordE.
Proof.
  destruct (failed_poll_is_isolated trackerService trackerState 0 recordA
              (Error "Failed to fetch"))
    as (Hsame & Hgen & _ & Hnext & Hsuccess & _ & Hrest & _).
  - apply (bool_decide_unpack _). vm_compute. reflexivity.
  - reflexivity.
  - reflexivity.
  - reflexivity.
  - split; [exact Hsame|]. split; [exact Hgen|]. split; [exact Hnext|]. split.
    + apply (Hsuccess 2%nat recordC
               {| status := "success";
                  statusVideoUrl := Some "https://v.example/c.mp4";
                  statusError := None |} "https://v.example/c.mp4"); reflexivity.
    + apply (Hrest 4%nat recordE); [reflexivity|].
      right. right.
      exists {| status := "processing"; statusVideoUrl := None; statusError := None |}.
      split; reflexivity.
Defined.

(** The cycle on the worked state: the failing poll and the pending
    answer leave their records generating, the success is attached. *)
Example cycle_on_worked_state :
  List.map (fun x => (Img.id x, Img.videoStatus x, Img.videoUrl x))
    (history (snd (pollCycle trackerService trackerState)))
  = [("a", Some "generating", None);
     ("b", Some "success", Some "https://v.example/b.mp4");
     ("c", Some "success", Some "https://v.example/c.mp4");
     ("d", None, None);
     ("e", Some "generating", None)].
Proof. by vm_compute. Qed.

End TrackerExamples.

(** * Further properties of the code *)

(** ** The event stream: failures and line endings *)

Section SseFurther.

Import Sse Lines.

Variable JSON_parse : string -> option value.

(** A throw of the block-by-block reading comes from an error event that
    no complete event with a data line precedes. *)
Lemma scanBlocks_throw_inv (blocks : list block) (e : Js.error) :
  scanBlocks JSON_parse blocks = Throw e ->
  e = Error quotaMessage /\
  exists pre b later,
    blocks = (pre ++ b :: later)%list
    /\ Forall (fun x => isCompleteWithData x = false) pre
    /\ isError b = true.
Proof.
  induction blocks as [|x blocks IH]; cbn [scanBlocks]; [done|].
  destruct (isComplete x) eqn:Hc.
  - destruct (firstData x) as [d|] eqn:Hd; [done|].
    intros (He & pre & b & later & -> & Hpre & Hb)%IH. split; [done|].
    exists (x :: pre), b, later. split; [done|]. split; [|done].
    constructor; [|done]. unfold isCompleteWithData, hasData.
    rewrite Hc, Hd. cbn [andb]. apply bool_decide_eq_false. by intros [? ?].
  - destruct (isError x) eqn:He.
    + intros [= <-]. split; [done|]. exists [], x, blocks. by repeat split.
    + intros (He' & pre & b & later & -> & Hpre & Hb)%IH. split; [done|].
      exists (x :: pre), b, later. split; [done|]. split; [|done].
      constructor; [|done]. unfold isCompleteWithData. by rewrite Hc.
Qed.

(** X1: the parse of a stream throws exactly when an error event comes
    before every complete event that has a data line, and what it throws
    then is the quota-exceeded error; in every other case it returns. *)
Theorem parse_throws_exactly_on_leading_error (sseStream : string) :
  (forall e, extractCompleteEventData JSON_parse sseStream = Throw e ->
             e = Error quotaMessage)
  /\ (extractCompleteEventData JSON_parse sseStream = Throw (Error quotaMessage)
      <-> exists pre b later,
            blocksOf sseStream = (pre ++ b :: later)%list
            /\ Forall (fun x => isCompleteWithData x = false) pre
            /\ isError b = true).
Proof.
  rewrite extract_scanBlocks. split; [|split].
  - by intros e [? _]%scanBlocks_throw_inv.
  - by intros [_ ?]%scanBlocks_throw_inv.
  - intros (pre & b & later & -> & Hpre & Hb). by apply scanBlocks_error.
Qed.

(** *** Carriage returns *)

Lemma trimEnd_cr (s : string) :
  trimEnd (s ++ String carriageReturn EmptyString) = trimEnd s.
Proof.
  induction s as [|c s IH]; [done|].
  change (String c s ++ String carriageReturn EmptyString)
    with (String c (s ++ String carriageReturn EmptyString)).
  cbn [trimEnd]. by rewrite IH.
Qed.

Lemma trim_cr (s : string) : trim (s ++ String carriageReturn EmptyString) = trim s.
Proof.
  unfold trim. induction s as [|c s IH]; [done|].
  change (String c s ++ String carriageReturn EmptyString)
    with (String c (s ++ String carriageReturn EmptyString)).
  cbn [trimStart]. destruct (isWhiteSpace c); [exact IH|].
  change (String c (s ++ String carriageReturn EmptyString))
    with (String c s ++ String carriageReturn EmptyString).
  apply trimEnd_cr.
Qed.

Lemma substringFrom_cr (n : nat) (s : string) :
  trim (substringFrom n (s ++ String carriageReturn EmptyString))
  = trim (substringFrom n s).
Proof.
  revert s. induction n as [|n IH]; intros s; [apply trim_cr|].
  destruct s as [|c s]; [by destruct n|]. apply IH.
Qed.

Lemma prefix_cr (p s : string) :
  forallb (fun a => negb (Ascii.eqb a carriageReturn)) (list_ascii_of_string p) = true ->
  String.prefix p (s ++ String carriageReturn EmptyString) = String.prefix p s.
Proof.
  revert s. induction p as [|a p IH]; intros s Hp; [by destruct s|].
  cbn [list_ascii_of_string forallb] in Hp. apply andb_prop in Hp as [Ha Hp].
  destruct s as [|b s].
  - change (EmptyString ++ String carriageReturn EmptyString)
      with (String carriageReturn EmptyString).
    cbn [String.prefix]. destruct (ascii_dec a carriageReturn) as [->|]; [|done].
    by rewrite Ascii.eqb_refl in Ha.
  - change (String b s ++ String carriageReturn EmptyString)
      with (String b (s ++ String carriageReturn EmptyString)).
    cbn [String.prefix]. destruct (ascii_dec a b); [by apply IH|done].
Qed.

(** A carriage return at the end of a line changes nothing for the loop. *)
Lemma scanLines_cr (lines lines' : list string) (flag : bool) :
  Forall2 (fun l l' => l' = l \/ l' = l ++ String carriageReturn EmptyString) lines lines' ->
  scanLines JSON_parse flag lines' = scanLines JSON_parse flag lines.
Proof.
  intros H. revert flag. induction H as [|l l' lines lines' Hl _ IH]; intros flag; [done|].
  destruct Hl as [->| ->]; cbn [scanLines]; [by rewrite !IH|].
  unfold startsWith, eventType, dataPayload.
  rewrite !prefix_cr, !substringFrom_cr by done. by rewrite !IH.
Qed.

Lemma split_line (line : string) :
  isLine line = true -> split newline line = [line].
Proof.
  induction line as [|c line IH]; [done|].
  unfold isLine. cbn [list_ascii_of_string forallb split].
  intros [Hc Hl]%andb_prop. apply negb_true_iff in Hc. rewrite Hc.
  by rewrite (IH Hl).
Qed.

Lemma split_line_app (line rest : string) :
  isLine line = true ->
  split newline (line ++ String newline rest) = line :: split newline rest.
Proof.
  induction line as [|c line IH].
  - intros _. change (EmptyString ++ String newline rest) with (String newline rest).
    cbn [split]. by rewrite Ascii.eqb_refl.
  - unfold isLine. cbn [list_ascii_of_string forallb].
    intros [Hc Hl]%andb_prop. apply negb_true_iff in Hc.
    change (String c line ++ String newline rest)
      with (String c (line ++ String newline rest)).
    cbn [split]. rewrite Hc. by rewrite (IH Hl).
Qed.

Lemma isLine_cr (line : string) :
  isLine line = true -> isLine (line ++ String carriageReturn EmptyString) = true.
Proof.
  induction line as [|c line IH]; [done|].
  unfold isLine. cbn [list_ascii_of_string forallb].
  intros [Hc Hl]%andb_prop.
  change (String c line ++ String carriageReturn EmptyString)
    with (String c (line ++ String carriageReturn EmptyString)).
  cbn [list_ascii_of_string forallb]. rewrite Hc. by apply IH.
Qed.

(** The lines of a stream written with LF are the lines it was made of. *)
Lemma split_unlines (line : string) (lines : list string) :
  Forall (fun l => isLine l = true) (line :: lines) ->
  split newline (unlines (line :: lines)) = line :: lines.
Proof.
  revert line. induction lines as [|l lines IH]; intros line Hall.
  - inversion Hall; subst. by apply split_line.
  - inversion Hall as [|? ? Hline Hrest]; subst.
    change (unlines (line :: l :: lines))
      with (line ++ String newline (unlines (l :: lines))).
    rewrite split_line_app by done. by rewrite IH.
Qed.

(** The lines of a stream written with CR LF are those lines, each but
    the last with a carriage return at its end. *)
Lemma split_crlfLines (line : string) (lines : list string) :
  Forall (fun l => isLine l = true) (line :: lines) ->
  Forall2 (fun l l' => l' = l \/ l' = l ++ String carriageReturn EmptyString)
    (line :: lines) (split newline (crlfLines (line :: lines))).
Proof.
  revert line. induction lines as [|l lines IH]; intros line Hall.
  - inversion Hall; subst. unfold crlfLines. cbn [String.concat].
    rewrite split_line by done. constructor; [by left|constructor].
  - inversion Hall as [|? ? Hline Hrest]; subst.
    change (crlfLines (line :: l :: lines))
      with (line ++ String carriageReturn (String newline (crlfLines (l :: lines)))).
    replace (line ++ String carriageReturn (String newline (crlfLines (l :: lines))))
      with ((line ++ String carriageReturn EmptyString)
              ++ String newline (crlfLines (l :: lines))).
    2:{ clear. induction line as [|c line IH]; [done|].
        change (String c line ++ String carriageReturn EmptyString)
          with (String c (line ++ String carriageReturn EmptyString)).
        change (String c (line ++ String carriageReturn EmptyString)
                  ++ String newline (crlfLines (l :: lines)))
          with (String c ((line ++ String carriageReturn EmptyString)
                  ++ String newline (crlfLines (l :: lines)))).
        by rewrite IH. }
    rewrite split_line_app by (by apply isLine_cr).
    constructor; [by right|]. by apply IH.
Qed.

(** X2: a stream whose lines end with CR LF parses to what the same
    lines ended with LF parse to. *)
Theorem crlf_stream_parses_the_same (lines : list string) :
  Forall (fun l => isLine l = true) lines ->
  extractCompleteEventData JSON_parse (crlfLines lines)
  = extractCompleteEventData JSON_parse (unlines lines).
Proof.
  intros Hall. destruct lines as [|line lines]; [done|].
  unfold extractCompleteEventData.
  rewrite (split_unlines line lines Hall).
  apply scanLines_cr. by apply split_crlfLines.
Qed.

End SseFurther.

(** ** The job adapter: requests, failures and results *)

Section AdapterFurther.

Import Sse Adapter Exchange.

Variable JSON_parse : string -> option value.

Local Abbreviation generatePath := ("/gradio_api/call/generate_image") (only parsing).

(** The requests and the outcome of the three calls, through the two
    awaited steps they share. *)
Lemma generateQwenImage_sent (env : exchange) (prompt aspectRatio : string)
    (seed : option number) :
  fst (generateQwenImage JSON_parse env prompt aspectRatio seed)
  = fst (queueAndFetch JSON_parse env
           (enqueueRequest env (QWEN_IMAGE_BASE_API_URL ++ generatePath)
              [VStr prompt; VNum (qwenSeedSlot seed); VBool (qwenRandomize seed);
               VStr aspectRatio; num 3; num 8])
           (QWEN_IMAGE_BASE_API_URL ++ "/gradio_api/call/generate_image/")).
Proof. unfold generateQwenImage. by destruct (queueAndFetch _ _ _ _). Qed.

Lemma generateZImage_sent (env : exchange) (prompt aspectRatio : string)
    (seedArg : option number) (enableHD : bool) :
  fst (generateZImage JSON_parse env prompt aspectRatio seedArg enableHD)
  = fst (queueAndFetch JSON_parse env
           (enqueueRequest env (ZIMAGE_BASE_API_URL ++ generatePath)
              [VStr prompt; num (height (getZImageDimensions aspectRatio enableHD));
               num (width (getZImageDimensions aspectRatio enableHD)); num 8;
               VNum (default (Int (randomSeed env)) seedArg); VBool false])
           (ZIMAGE_BASE_API_URL ++ "/gradio_api/call/generate_image/")).
Proof.
  unfold generateZImage. destruct (getZImageDimensions _ _) as [w h].
  by destruct (queueAndFetch _ _ _ _).
Qed.

Lemma upscaler_sent (env : exchange) (url : string) :
  fst (upscaler JSON_parse env url)
  = fst (queueAndFetch JSON_parse env
           (enqueueRequest env (UPSCALER_BASE_API_URL ++ "/gradio_api/call/realesrgan")
              [VObj [("path", VStr url);
                     ("meta", VObj [("_type", VStr "gradio.FileData")])];
               VStr "RealESRGAN_x4plus"; VNum (Dec 5 (-1)); VBool false; num 4])
           (UPSCALER_BASE_API_URL ++ "/gradio_api/call/realesrgan/")).
Proof. unfold upscaler. by destruct (queueAndFetch _ _ _ _). Qed.

Lemma upscaler_result (env : exchange) (url : string) :
  exists enqueue,
  snd (upscaler JSON_parse env url)
  = rethrow (
      data ← snd (queueAndFetch JSON_parse env enqueue
                    (UPSCALER_BASE_API_URL ++ "/gradio_api/call/realesrgan/"));
      first ← getIndex data 0;
      u ← getProp first "url";
      mret (VObj [("url", u)])).
Proof.
  unfold upscaler.
  exists (enqueueRequest env (UPSCALER_BASE_API_URL ++ "/gradio_api/call/realesrgan")
            [VObj [("path", VStr url);
                   ("meta", VObj [("_type", VStr "gradio.FileData")])];
             VStr "RealESRGAN_x4plus"; VNum (Dec 5 (-1)); VBool false; num 4]).
  by destruct (queueAndFetch _ _ _ _).
Qed.

(** What the two awaited steps give when the job is not accepted. *)
Lemma queueAndFetch_refused (env : exchange) (enqueue : request) (resultUrl : string)
    (e : Js.error) :
  queueJson env = Throw e
  \/ (exists queue, queueJson env = Ok queue /\ getProp queue "event_id" = Throw e) ->
  queueAndFetch JSON_parse env enqueue resultUrl = ([enqueue], Throw e).
Proof.
  unfold queueAndFetch. intros [->|(queue & -> & ->)]; done.
Qed.

(** What they give when it is. *)
Lemma queueAndFetch_accepted (env : exchange) (enqueue : request) (resultUrl : string) :
  accepted env ->
  snd (queueAndFetch JSON_parse env enqueue resultUrl)
  = (text ← responseText env; extractCompleteEventData JSON_parse text).
Proof.
  intros (queue & event_id & Hq & He). unfold queueAndFetch. by rewrite Hq, He.
Qed.

(** X3: when the enqueue request fails, or its reply cannot be
    destructured (it is null), each call sends that one POST request and
    no result request, and throws the error as it is. *)
Theorem refused_job_sends_one_request (env : exchange)
    (model prompt aspectRatio url : string) (seed : option number) (enableHD : bool)
    (e : Js.error) :
  queueJson env = Throw e
  \/ (exists queue, queueJson env = Ok queue /\ getProp queue "event_id" = Throw e) ->
  forall sent : list request,
    sent = fst (generateZImage JSON_parse env prompt aspectRatio seed enableHD)
    \/ sent = fst (generateQwenImage JSON_parse env prompt aspectRatio seed)
    \/ sent = fst (upscaler JSON_parse env url) ->
    (exists enqueue, sent = [enqueue] /\ reqMethod enqueue = "POST")
    /\ snd (generateZImage JSON_parse env prompt aspectRatio seed enableHD) = Throw e
    /\ snd (generateQwenImage JSON_parse env prompt aspectRatio seed) = Throw e
    /\ snd (generateImage JSON_parse env model prompt aspectRatio seed enableHD) = Throw e
    /\ snd (upscaler JSON_parse env url) = Throw e.
Proof.
  intros Hrefused sent Hsent.
  assert (Hz : snd (generateZImage JSON_parse env prompt aspectRatio seed enableHD)
               = Throw e).
  { destruct (generateZImage_result JSON_parse env prompt aspectRatio seed enableHD)
      as [enq ->]. by rewrite (queueAndFetch_refused env _ _ e). }
  assert (Hq : snd (generateQwenImage JSON_parse env prompt aspectRatio seed) = Throw e).
  { rewrite generateQwenImage_result. by rewrite (queueAndFetch_refused env _ _ e). }
  split; [|split; [done|split; [done|split]]].
  - destruct Hsent as [->|[->| ->]].
    + rewrite generateZImage_sent, (queueAndFetch_refused env _ _ e) by done. by eexists.
    + rewrite generateQwenImage_sent, (queueAndFetch_refused env _ _ e) by done. by eexists.
    + rewrite upscaler_sent, (queueAndFetch_refused env _ _ e) by done. by eexists.
  - unfold generateImage. by destruct (String.eqb model "qwen-image-fast").
  - destruct (upscaler_result env url) as [enq ->]. by rewrite (queueAndFetch_refused env _ _ e).
Qed.

(** X4: when the job is accepted and reading the stream fails (the text
    cannot be read, or the stream has an error event first), each call
    throws that error as it is: the quota message reaches the caller. *)
Theorem stream_failure_reaches_the_caller (env : exchange)
    (model prompt aspectRatio url : string) (seed : option number) (enableHD : bool)
    (e : Js.error) :
  accepted env ->
  responseText env = Throw e
  \/ (exists text, responseText env = Ok text
                   /\ extractCompleteEventData JSON_parse text = Throw e) ->
  snd (generateZImage JSON_parse env prompt aspectRatio seed enableHD) = Throw e
  /\ snd (generateQwenImage JSON_parse env prompt aspectRatio seed) = Throw e
  /\ snd (generateImage JSON_parse env model prompt aspectRatio seed enableHD) = Throw e
  /\ snd (upscaler JSON_parse env url) = Throw e.
Proof.
  intros Hacc Hfail.
  assert (Hdata : (text ← responseText env; extractCompleteEventData JSON_parse text)
                  = Throw e).
  { destruct Hfail as [->|(text & -> & Hx)]; [done|exact Hx]. }
  assert (Hz : snd (generateZImage JSON_parse env prompt aspectRatio seed enableHD)
               = Throw e).
  { destruct (generateZImage_result JSON_parse env prompt aspectRatio seed enableHD)
      as [enq ->]. by rewrite queueAndFetch_accepted, Hdata. }
  assert (Hq : snd (generateQwenImage JSON_parse env prompt aspectRatio seed) = Throw e).
  { rewrite generateQwenImage_result. by rewrite queueAndFetch_accepted, Hdata. }
  split; [done|split; [done|split]].
  - unfold generateImage. by destruct (String.eqb model "qwen-image-fast").
  - destruct (upscaler_result env url) as [enq ->].
    by rewrite queueAndFetch_accepted, Hdata.
Qed.

(** X5: when the stream parses to no result (null), none of the calls
    resolves to "no result": each throws a TypeError. *)
Theorem no_result_is_a_type_error (env : exchange)
    (model prompt aspectRatio url text : string) (seed : option number) (enableHD : bool) :
  accepted env ->
  responseText env = Ok text ->
  extractCompleteEventData JSON_parse text = Ok VNull ->
  snd (generateZImage JSON_parse env prompt aspectRatio seed enableHD) = Throw TypeError
  /\ snd (generateQwenImage JSON_parse env prompt aspectRatio seed) = Throw TypeError
  /\ snd (generateImage JSON_parse env model prompt aspectRatio seed enableHD)
     = Throw TypeError
  /\ snd (upscaler JSON_parse env url) = Throw TypeError.
Proof.
  intros Hacc Htext Hnull.
  assert (Hdata : (t ← responseText env; extractCompleteEventData JSON_parse t)
                  = Ok VNull) by (by rewrite Htext).
  assert (Hz : snd (generateZImage JSON_parse env prompt aspectRatio seed enableHD)
               = Throw TypeError).
  { destruct (generateZImage_result JSON_parse env prompt aspectRatio seed enableHD)
      as [enq ->]. by rewrite queueAndFetch_accepted, Hdata. }
  assert (Hq : snd (generateQwenImage JSON_parse env prompt aspectRatio seed)
               = Throw TypeError).
  { rewrite generateQwenImage_result. by rewrite queueAndFetch_accepted, Hdata. }
  split; [done|split; [done|split]].
  - unfold generateImage. by destruct (String.eqb model "qwen-image-fast").
  - destruct (upscaler_result env url) as [enq ->].
    by rewrite queueAndFetch_accepted, Hdata.
Qed.

(** The requests of the two awaited steps. *)
Lemma queueAndFetch_sent (env : exchange) (enqueue : request) (resultUrl : string) :
  fst (queueAndFetch JSON_parse env enqueue resultUrl) = [enqueue]
  \/ exists queue event_id,
       queueJson env = Ok queue /\ getProp queue "event_id" = Ok event_id
       /\ fst (queueAndFetch JSON_parse env enqueue resultUrl)
          = [enqueue; resultRequest env (resultUrl ++ toStr event_id)].
Proof.
  unfold queueAndFetch. destruct (queueJson env) as [queue|]; [|by left].
  destruct (getProp queue "event_id") as [event_id|] eqn:He; [|by left].
  right. by exists queue, event_id.
Qed.

(** The shape of what the two awaited steps send. *)
Lemma queueAndFetch_shape (env : exchange) (url resultUrl : string) (data : list value) :
  exists enqueue,
    reqMethod enqueue = "POST" /\ reqUrl enqueue = url
    /\ (fst (queueAndFetch JSON_parse env (enqueueRequest env url data) resultUrl)
        = [enqueue]
        \/ exists queue event_id result,
             queueJson env = Ok queue /\ getProp queue "event_id" = Ok event_id
             /\ fst (queueAndFetch JSON_parse env (enqueueRequest env url data) resultUrl)
                = [enqueue; result]
             /\ reqMethod result = "GET" /\ reqBody result = None
             /\ forall s, event_id = VStr s -> reqUrl result = resultUrl ++ s).
Proof.
  exists (enqueueRequest env url data). split; [done|]. split; [done|].
  destruct (queueAndFetch_sent env (enqueueRequest env url data) resultUrl)
    as [->|(queue & event_id & Hq & He & ->)]; [by left|].
  right. exists queue, event_id, (resultRequest env (resultUrl ++ toStr event_id)).
  repeat split; try done. by intros s ->.
Qed.

(** X6: each call sends its POST request to the enqueue endpoint first
    and nothing else, or that request and then one GET request with no
    body; when the event id of the reply is a string, the GET request
    goes to the same endpoint followed by a slash and that string. *)
Theorem result_request_follows_the_event_id (env : exchange)
    (prompt aspectRatio url : string) (seed : option number) (enableHD : bool) :
  let shape (endpoint : string) (sent : list request) :=
    exists enqueue,
      reqMethod enqueue = "POST" /\ reqUrl enqueue = endpoint
      /\ (sent = [enqueue]
          \/ exists queue event_id result,
               queueJson env = Ok queue /\ getProp queue "event_id" = Ok event_id
               /\ sent = [enqueue; result]
               /\ reqMethod result = "GET" /\ reqBody result = None
               /\ forall s, event_id = VStr s ->
                            reqUrl result = endpoint ++ "/" ++ s) in
  shape "https://luca115-z-image-turbo.hf.space/gradio_api/call/generate_image"
    (fst (generateZImage JSON_parse env prompt aspectRatio seed enableHD))
  /\ shape "https://mcp-tools-qwen-image-fast.hf.space/gradio_api/call/generate_image"
       (fst (generateQwenImage JSON_parse env prompt aspectRatio seed))
  /\ shape "https://tuan2308-upscaler.hf.space/gradio_api/call/realesrgan"
       (fst (upscaler JSON_parse env url)).
Proof.
  cbn zeta. split; [|split].
  - rewrite generateZImage_sent. apply queueAndFetch_shape.
  - rewrite generateQwenImage_sent. apply queueAndFetch_shape.
  - rewrite upscaler_sent. apply queueAndFetch_shape.
Qed.

(** X7: a reply of the queue that is an object with no [event_id] does
    not stop a generation: the result request is sent all the same, to
    the endpoint followed by "/undefined". *)
Theorem missing_event_id_is_requested_as_undefined (env : exchange)
    (model prompt aspectRatio : string) (seed : option number) (enableHD : bool)
    (fields : list (string * value)) :
  queueJson env = Ok (VObj fields) ->
  assocLast "event_id" fields = None ->
  reqUrl <$> fst (generateImage JSON_parse env model prompt aspectRatio seed enableHD) !! 1%nat
  = Some (if String.eqb model "qwen-image-fast"
          then "https://mcp-tools-qwen-image-fast.hf.space/gradio_api/call/generate_image/undefined"
          else "https://luca115-z-image-turbo.hf.space/gradio_api/call/generate_image/undefined").
Proof.
  intros Hq Hnone. unfold generateImage.
  destruct (String.eqb model "qwen-image-fast").
  - rewrite generateQwenImage_sent. unfold queueAndFetch.
    rewrite Hq. cbn [getProp]. by rewrite Hnone.
  - rewrite generateZImage_sent. unfold queueAndFetch.
    rewrite Hq. cbn [getProp]. by rewrite Hnone.
Qed.

(** The steps of a call that ends well, read back from its result. *)
Lemma qwen_result_inv (env : exchange) (prompt aspectRatio : string)
    (seed : option number) (img : Img.t) :
  snd (generateQwenImage JSON_parse env prompt aspectRatio seed) = Ok img ->
  exists u parsed second,
    parseSeedEcho second = Ok parsed
    /\ img = {| Img.id := randomUUID env; Img.url := u; Img.model := "qwen-image-fast";
                Img.prompt := prompt; Img.aspectRatio := aspectRatio;
                Img.timestamp := dateNow env; Img.seed := parsed;
                Img.videoStatus := None; Img.videoTaskId := None;
                Img.videoProvider := None; Img.videoUrl := None;
                Img.videoError := None |}.
Proof.
  rewrite generateQwenImage_result.
  destruct (snd (queueAndFetch _ _ _ _)) as [data|]; [|done].
  cbn [mbind outcome_bind Js.bind].
  destruct (getIndex data 0) as [first|]; [|done]. cbn [mbind outcome_bind Js.bind].
  destruct (getProp first "url") as [u|]; [|done]. cbn [mbind outcome_bind Js.bind].
  destruct (getIndex data 1) as [second|]; [|done]. cbn [mbind outcome_bind Js.bind].
  destruct (parseSeedEcho second) as [parsed|] eqn:Hp; [|done].
  cbn [mbind outcome_bind Js.bind mret outcome_ret rethrow].
  intros [= <-]. by exists u, parsed, second.
Qed.

Lemma zimage_result_inv (env : exchange) (prompt aspectRatio : string)
    (seed : option number) (enableHD : bool) (img : Img.t) :
  snd (generateZImage JSON_parse env prompt aspectRatio seed enableHD) = Ok img ->
  exists u second,
    img = {| Img.id := randomUUID env; Img.url := u; Img.model := "z-image-turbo";
             Img.prompt := prompt; Img.aspectRatio := aspectRatio;
             Img.timestamp := dateNow env; Img.seed := second;
             Img.videoStatus := None; Img.videoTaskId := None;
             Img.videoProvider := None; Img.videoUrl := None;
             Img.videoError := None |}.
Proof.
  destruct (generateZImage_result JSON_parse env prompt aspectRatio seed enableHD)
    as [enq ->].
  destruct (snd (queueAndFetch _ _ _ _)) as [data|]; [|done].
  cbn [mbind outcome_bind Js.bind].
  destruct (getIndex data 0) as [first|]; [|done]. cbn [mbind outcome_bind Js.bind].
  destruct (getProp first "url") as [u|]; [|done]. cbn [mbind outcome_bind Js.bind].
  destruct (getIndex data 1) as [second|]; [|done].
  cbn [mbind outcome_bind Js.bind mret outcome_ret rethrow].
  intros [= <-]. by exists u, second.
Qed.

(** X8: an image that [generateImage] resolves to takes its id and its
    timestamp from the environment, echoes the prompt and the aspect
    ratio of the request, names the model of the path that was taken
    (qwen-image-fast for that model string, z-image-turbo for every
    other), carries no video field, and on the qwen path its seed is a
    number. *)
Theorem generated_image_metadata (env : exchange) (model prompt aspectRatio : string)
    (seed : option number) (enableHD : bool) (img : Img.t) :
  snd (generateImage JSON_parse env model prompt aspectRatio seed enableHD) = Ok img ->
  Img.id img = randomUUID env
  /\ Img.timestamp img = dateNow env
  /\ Img.prompt img = prompt
  /\ Img.aspectRatio img = aspectRatio
  /\ Img.model img = (if String.eqb model "qwen-image-fast"
                      then "qwen-image-fast" else "z-image-turbo")
  /\ (Img.videoStatus img, Img.videoTaskId img, Img.videoProvider img,
      Img.videoUrl img, Img.videoError img) = (None, None, None, None, None)
  /\ (model = "qwen-image-fast" -> exists n, Img.seed img = VNum n).
Proof.
  unfold generateImage. destruct (String.eqb model "qwen-image-fast") eqn:Hm.
  - intros (u & parsed & second & Hp & ->)%qwen_result_inv.
    repeat split. intros _. unfold parseSeedEcho in Hp.
    destruct second; try done. injection Hp as <-. by eexists.
  - intros (u & second & ->)%zimage_result_inv.
    repeat split. intros ->. done.
Qed.

(** X9: on the qwen path a second element of the data that is not a
    string (a number, as a backend that reports the seed itself would
    send) makes the call throw a TypeError; no image is returned. *)
Theorem qwen_seed_must_be_a_string (env : exchange) (prompt aspectRatio text : string)
    (seed : option number) (data first u second : value) :
  accepted env ->
  responseText env = Ok text ->
  extractCompleteEventData JSON_parse text = Ok data ->
  getIndex data 0 = Ok first ->
  getProp first "url" = Ok u ->
  getIndex data 1 = Ok second ->
  (forall s, second <> VStr s) ->
  snd (generateQwenImage JSON_parse env prompt aspectRatio seed) = Throw TypeError.
Proof.
  intros Hacc Htext Hdata Hfirst Hu Hsecond Hnot.
  rewrite generateQwenImage_result, queueAndFetch_accepted, Htext by done.
  cbn [mbind outcome_bind Js.bind]. rewrite Hdata. cbn [mbind outcome_bind Js.bind].
  rewrite Hfirst. cbn [mbind outcome_bind Js.bind].
  rewrite Hu. cbn [mbind outcome_bind Js.bind].
  rewrite Hsecond. cbn [mbind outcome_bind Js.bind].
  destruct second; try done. by destruct (Hnot s).
Qed.

(** X10: the headers of a request hold nothing but the content type and,
    with a token, the authorization. *)
Theorem no_other_header (ls : storage) (name : string) :
  name <> "Content-Type" ->
  name <> "Authorization" ->
  getAuthHeaders ls !! name = None.
Proof.
  intros Hct Hauth. unfold getAuthHeaders.
  destruct (getItem ls "huggingFaceToken") as [t|].
  - destruct (truthyString t).
    + rewrite lookup_insert_ne by done. by rewrite lookup_singleton_ne.
    + by rewrite lookup_singleton_ne.
  - by rewrite lookup_singleton_ne.
Qed.

End AdapterFurther.

Section DimensionsFurther.

Import Adapter.

(** X11: whatever the ratio string and the HD flag, the two dimensions
    are multiples of 16 between 720 and 2048, the larger one is at least
    1024, and enabling HD lowers neither. *)
Theorem zimage_dimensions_bounds (ratio : string) (enableHD : bool) :
  let d := getZImageDimensions ratio enableHD in
  (16 | width d) /\ (16 | height d)
  /\ 720 <= width d <= 2048 /\ 720 <= height d <= 2048
  /\ 1024 <= Z.max (width d) (height d)
  /\ width (getZImageDimensions ratio false) <= width (getZImageDimensions ratio true)
  /\ height (getZImageDimensions ratio false) <= height (getZImageDimensions ratio true).
Proof.
  cbn zeta. unfold getZImageDimensions.
  assert (H16 : forall k, (16 | 16 * k)) by (intros k; exists k; lia).
  destruct enableHD;
    repeat (destruct (String.eqb ratio _));
    cbn [width height];
    repeat split; try lia;
    first [ apply (H16 128) | apply (H16 72) | apply (H16 96) | apply (H16 120)
          | apply (H16 80) | apply (H16 64) | apply (H16 45) | apply (H16 48) ].
Qed.

(** X12: the dimensions of a ratio and of the transposed ratio are
    transposed, with and without HD. *)
Theorem zimage_dimensions_transpose (r r' : AspectRatioOption) (enableHD : bool)
    (a b : Z) :
  ratioParts (ratioString r) = Some (a, b) ->
  ratioParts (ratioString r') = Some (b, a) ->
  width (getZImageDimensions (ratioString r') enableHD)
  = height (getZImageDimensions (ratioString r) enableHD)
  /\ height (getZImageDimensions (ratioString r') enableHD)
     = width (getZImageDimensions (ratioString r) enableHD).
Proof.
  destruct r, r', enableHD; vm_compute; intros [= <- <-] H; try discriminate H;
    by split.
Qed.

(** X13: a ratio string that is none of the six listed ones (an option
    with no case of its own, or a string that is no option at all) gets
    the square default. *)
Theorem unknown_ratio_is_square (ratio : string) (enableHD : bool) :
  ratio ∉ ["16:9"; "4:3"; "3:2"; "9:16"; "3:4"; "2:3"] ->
  getZImageDimensions ratio enableHD = square enableHD.
Proof.
  intros Hnot. unfold getZImageDimensions, square.
  assert (Hne : forall s, s ∈ ["16:9"; "4:3"; "3:2"; "9:16"; "3:4"; "2:3"] ->
                          String.eqb ratio s = false).
  { intros s Hs. apply String.eqb_neq. by intros ->. }
  rewrite !Hne by set_solver. by destruct enableHD.
Qed.

End DimensionsFurther.

(** ** The prompt optimizer *)

Section PromptFurther.

Import Adapter Prompt.

(** The optional chain throws on a body that is null or undefined and
    nowhere else. *)
Lemma replyContent_total (data : value) :
  data <> VNull -> data <> VUndefined -> exists c, replyContent data = Ok c.
Proof.
  intros Hnull Hundef. unfold replyContent.
  assert (Hprop : forall v name, exists c,
            optionalChain v (fun f => getProp f name) = Ok c).
  { intros v name. destruct v; cbn; eauto. }
  assert (Hindex : forall v, exists c,
            optionalChain v (fun f => getIndex f 0) = Ok c).
  { intros v. destruct v; cbn; eauto. }
  assert (Hchoices : exists choices, getProp data "choices" = Ok choices).
  { destruct data; cbn; eauto; done. }
  destruct Hchoices as [choices ->]. cbn [mbind outcome_bind Js.bind].
  destruct (Hindex choices) as [first ->]. cbn [mbind outcome_bind Js.bind].
  destruct (Hprop first "message") as [message ->]. cbn [mbind outcome_bind Js.bind].
  apply Hprop.
Qed.

Lemma replyContent_throw_inv (data : value) (e : Js.error) :
  replyContent data = Throw e ->
  e = TypeError /\ (data = VNull \/ data = VUndefined).
Proof.
  intros H.
  destruct data as [| |b|n|s|items|fields];
    try (cbn in H; injection H as <-; split; [done|]; (by left) || (by right)).
  all: match goal with
       | H : replyContent ?d = Throw _ |- _ =>
           destruct (replyContent_total d) as [c Hc]; [done|done|congruence]
       end.
Qed.

(** X14: the optimizer throws in four cases and no other: [fetch]
    fails; the status is not ok (the error names the status); the body
    cannot be read as JSON; the body is null (a TypeError, not the
    fallback). *)
Theorem optimizer_failures (fetched : outcome response) (originalPrompt : string)
    (e : Js.error) :
  snd (optimizePrompt fetched originalPrompt) = Throw e
  <-> fetched = Throw e
      \/ exists resp,
           fetched = Ok resp
           /\ (ok resp = false
               /\ e = Error ("HTTP error! status: " ++ pretty (httpStatus resp))
               \/ ok resp = true /\ json resp = Throw e
               \/ ok resp = true /\ e = TypeError
                  /\ (json resp = Ok VNull \/ json resp = Ok VUndefined)).
Proof.
  unfold optimizePrompt. cbn [snd]. split.
  - destruct fetched as [resp|e0]; cbn [mbind outcome_bind Js.bind rethrow];
      [|intros [= ->]; by left].
    intros H. right. exists resp. split; [done|].
    destruct (ok resp) eqn:Hok; cbn [negb] in H.
    + right. destruct (json resp) as [data|e1] eqn:Hjson;
        cbn [mbind outcome_bind Js.bind] in H.
      * destruct (replyContent data) as [c|e2] eqn:Hc;
          cbn [mbind outcome_bind Js.bind mret outcome_ret] in H; [done|].
        injection H as <-.
        apply replyContent_throw_inv in Hc as [-> [-> | ->]];
          right; (repeat split; [by left]) || (repeat split; by right).
      * injection H as <-. by left.
    + injection H as <-. by left.
  - intros [->|(resp & -> & Hcases)]; [done|].
    cbn [mbind outcome_bind Js.bind].
    destruct Hcases as [[Hok ->]|[[Hok Hj]|(Hok & -> & [Hj|Hj])]];
      rewrite Hok; cbn [negb]; [done|by rewrite Hj..].
Qed.

(** X15: on an ok reply whose body is a JSON object, the optimizer
    returns the content of the first choice when it is a string that is not
    empty, and the original prompt, as it is, when the body has no
    choices, when the choices are an empty array, when the first choice has
    no message, and when the message has no content or an empty one. *)
Theorem optimizer_content_or_prompt (resp : response) (originalPrompt : string)
    (fields : list (string * value)) :
  ok resp = true ->
  json resp = Ok (VObj fields) ->
  let result := snd (optimizePrompt (Ok resp) originalPrompt) in
  (assocLast "choices" fields = None -> result = Ok (VStr originalPrompt))
  /\ (assocLast "choices" fields = Some (VArr []) -> result = Ok (VStr originalPrompt))
  /\ (forall first rest,
        assocLast "choices" fields = Some (VArr (VObj first :: rest)) ->
        (assocLast "message" first = None -> result = Ok (VStr originalPrompt))
        /\ (forall message,
              assocLast "message" first = Some (VObj message) ->
              (assocLast "content" message = None -> result = Ok (VStr originalPrompt))
              /\ (assocLast "content" message = Some (VStr EmptyString) ->
                  result = Ok (VStr originalPrompt))
              /\ (forall content,
                    assocLast "content" message = Some (VStr content) ->
                    content <> EmptyString -> result = Ok (VStr content)))).
Proof.
  intros Hok Hjson. cbn zeta. unfold optimizePrompt. cbn [snd].
  cbn [mbind outcome_bind Js.bind]. rewrite Hok, Hjson. cbn [negb].
  cbn [mbind outcome_bind Js.bind]. unfold replyContent. cbn [getProp].
  split; [|split].
  - by intros ->.
  - by intros ->.
  - intros first rest ->. cbn. split.
    + by intros ->.
    + intros message ->. cbn. split; [by intros ->|]. split; [by intros ->|].
      intros content -> Hne. cbn. by destruct content.
Qed.

End PromptFurther.

(** ** The task tracker: what a cycle keeps *)

Section TrackerFurther.

Import Tracker Invariants.

Implicit Types (service : string -> outcome TaskStatus) (st : AppState).

Lemma applyUpdates_stillFields (us : list Update) (item : Img.t) :
  stillFields (applyUpdates us item) = stillFields item.
Proof.
  unfold applyUpdates. destruct (findUpdate us (Img.id item)) as [u|]; [|done].
  destruct (_ && _); [done|]. by destruct (String.eqb _ _).
Qed.

Lemma applyUpdates_id (us : list Update) (item : Img.t) :
  Img.id (applyUpdates us item) = Img.id item.
Proof.
  pose proof (applyUpdates_stillFields us item) as H. unfold stillFields in H.
  by injection H.
Qed.

(** An update never makes a record pending. *)
Lemma applyUpdates_pending (us : list Update) (item : Img.t) :
  isPendingVideo (applyUpdates us item) = true -> isPendingVideo item = true.
Proof.
  unfold applyUpdates. destruct (findUpdate us (Img.id item)) as [u|]; [|done].
  destruct (_ && _); [done|]. by destruct (String.eqb _ _).
Qed.

(** X16: a cycle never adds, removes or reorders a record, and writes
    nothing but the video status, the video URL and the video error: the
    id, the image URL, the model, the prompt, the aspect ratio, the
    timestamp, the seed, the task id and the video provider of every
    record are kept. *)
Theorem cycle_keeps_all_but_the_video service st :
  Forall2 (fun before after => stillFields after = stillFields before)
    (history st) (history (snd (pollCycle service st))).
Proof.
  rewrite pollCycle_history_map.
  induction (history st) as [|item hist IH] in |- * at 1 3; [constructor|].
  cbn [List.map]. constructor; [apply applyUpdates_stillFields|exact IH].
Qed.

(** The image on display gets the update of its record. *)
Lemma pollCycle_current service st :
  currentImage (snd (pollCycle service st))
  = applyUpdates (cycleUpdates service (history st)) <$> currentImage st.
Proof.
  unfold pollCycle, cycleUpdates.
  destruct (List.filter isPendingVideo (history st)) as [|p pending] eqn:Hp.
  - cbn. by destruct (currentImage st).
  - cbn [List.length Nat.eqb snd].
    destruct (omap _ _) as [|u us] eqn:Hu.
    + cbn. by destruct (currentImage st).
    + cbn [List.length Nat.ltb Nat.leb]. unfold syncCurrent, applyUpdates.
      destruct (currentImage st) as [c|]; [|done]. cbn [fmap option_fmap option_map].
      destruct (findUpdate (u :: us) (Img.id c)) as [v|]; [|done].
      destruct (_ && _); [done|]. by destruct (String.eqb _ _).
Qed.

(** X17: when the image on display is the record of the history that has
    its id, it still is after a cycle: the update of the record is
    mirrored into it. *)
Theorem displayed_image_stays_in_sync service st :
  displayedInSync st -> displayedInSync (snd (pollCycle service st)).
Proof.
  intros Hsync c' item'. rewrite pollCycle_current, pollCycle_history_map.
  destruct (currentImage st) as [c|] eqn:Hc; [|done].
  cbn [fmap option_fmap option_map]. intros [= <-] Hin Hid.
  apply list_elem_of_In, List.in_map_iff in Hin as (item & <- & Hin).
  rewrite !applyUpdates_id in Hid.
  by rewrite (Hsync c item Hc (proj2 (list_elem_of_In _ _) Hin) Hid).
Qed.

(** With nothing pending, a cycle does nothing. *)
Lemma pollCycle_idle service st :
  List.filter isPendingVideo (history st) = [] -> pollCycle service st = ([], st).
Proof. intros H. unfold pollCycle. by rewrite H. Qed.

Lemma runCycles_idle (services : list (string -> outcome TaskStatus)) st :
  List.filter isPendingVideo (history st) = [] -> runCycles services st = st.
Proof.
  intros H. induction services as [|service later IH]; [done|].
  cbn [runCycles]. by rewrite (pollCycle_idle service st H).
Qed.

(** X18: once no record is pending, no later cycle issues a poll or
    changes the state, whatever the service would answer. *)
Theorem idle_tracker_stays_idle (services : list (string -> outcome TaskStatus)) st :
  List.filter isPendingVideo (history st) = [] ->
  runCycles services st = st
  /\ Forall (fun service => fst (pollCycle service st) = []) services.
Proof.
  intros H. split; [by apply runCycles_idle|].
  apply List.Forall_forall. intros service _. by rewrite pollCycle_idle.
Qed.

Lemma reconcile_final (r : TaskStatus) (item : Img.t) :
  isFinal r = true -> isPendingVideo (reconcile (Ok r) item) = false.
Proof.
  unfold isFinal, reconcile. intros H.
  destruct (String.eqb (status r) "success") eqn:Hs.
  - destruct (truthyOptString (statusVideoUrl r)); [done|].
    apply String.eqb_eq in Hs. rewrite Hs in H. by vm_compute in H.
  - cbn [andb] in H. rewrite orb_false_r in H. by rewrite H.
Qed.

(** X19: in a history of records with distinct ids, a cycle in which the
    poll of every pending record answers a failure, or a success with a
    URL, leaves no record pending; the polling ends there. *)
Theorem final_answers_end_the_polling service st :
  NoDup (List.map Img.id (history st)) ->
  (forall item, item ∈ history st -> isPendingVideo item = true ->
     exists r, service (ownTaskId item) = Ok r /\ isFinal r = true) ->
  List.filter isPendingVideo (history (snd (pollCycle service st))) = []
  /\ forall later, runCycles (service :: later) st = snd (pollCycle service st).
Proof.
  intros Hnd Hfinal.
  assert (Hnone : List.filter isPendingVideo (history (snd (pollCycle service st))) = []).
  { rewrite pollCycle_history by done.
    induction (history st) as [|item hist IH]; [done|].
    cbn [List.map List.filter].
    assert (Hitem : isPendingVideo
              (if isPendingVideo item
               then reconcile (service (ownTaskId item)) item else item) = false).
    { destruct (isPendingVideo item) eqn:Hp; [|done].
      destruct (Hfinal item) as (r & -> & Hr); [by left|done|].
      by apply reconcile_final. }
    rewrite Hitem. apply IH.
    - cbn [List.map] in Hnd. by apply NoDup_cons in Hnd as [_ ?].
    - intros x Hx. apply Hfinal. by right. }
  split; [done|]. intros later. cbn [runCycles]. by apply runCycles_idle.
Qed.

(** X20: in a history of records with distinct ids, an answer of success
    that carries no video URL does not finish the record: it is left as
    it is, still generating, and the next cycle polls it again. *)
Theorem success_without_url_is_not_final service st (i : nat) (item : Img.t)
    (r : TaskStatus) :
  NoDup (List.map Img.id (history st)) ->
  history st !! i = Some item ->
  isPendingVideo item = true ->
  service (ownTaskId item) = Ok r ->
  status r = "success" ->
  truthyOptString (statusVideoUrl r) = false ->
  history (snd (pollCycle service st)) !! i = Some item
  /\ forall service', ownTaskId item ∈ fst (pollCycle service' (snd (pollCycle service st))).
Proof.
  intros Hnd Hi Hp Hr Hs Hurl.
  assert (Hsame : history (snd (pollCycle service st)) !! i = Some item).
  { rewrite (pollCycle_lookup service st i item) by done.
    rewrite Hp, Hr. unfold reconcile. by rewrite Hs, Hurl. }
  split; [done|]. intros service'. rewrite pollCycle_polls.
  apply list_elem_of_In, List.in_map, List.filter_In. split; [|done].
  apply list_elem_of_In. by eapply list_elem_of_lookup_2.
Qed.

Lemma filter_map_length {A : Type} (p : A -> bool) (f : A -> A) (l : list A) :
  (forall x, p (f x) = true -> p x = true) ->
  (List.length (List.filter p (List.map f l)) <= List.length (List.filter p l))%nat.
Proof.
  intros Hp. induction l as [|x l IH]; [done|]. cbn [List.map List.filter].
  destruct (p (f x)) eqn:Hfx.
  - rewrite (Hp x Hfx). cbn [List.length]. lia.
  - destruct (p x); cbn [List.length]; lia.
Qed.

(** X21: a cycle never makes a record pending: the number of pending
    records, and with it the number of polls of the next cycle, does not
    grow. *)
Theorem pending_records_never_grow service service' st :
  (List.length (List.filter isPendingVideo (history (snd (pollCycle service st))))
   <= List.length (List.filter isPendingVideo (history st)))%nat
  /\ (List.length (fst (pollCycle service' (snd (pollCycle service st))))
      <= List.length (fst (pollCycle service st)))%nat.
Proof.
  assert (H : (List.length (List.filter isPendingVideo
                              (history (snd (pollCycle service st))))
               <= List.length (List.filter isPendingVideo (history st)))%nat).
  { rewrite pollCycle_history_map. apply filter_map_length, applyUpdates_pending. }
  split; [exact H|]. by rewrite !pollCycle_polls, !List.length_map.
Qed.

End TrackerFurther.

(** ** The handlers of [App] *)

Section TrimFacts.

Import Invariants.

Lemma trimStart_blank (s : string) : isBlank s = true -> trimStart s = EmptyString.
Proof.
  unfold isBlank. induction s as [|c s IH]; [done|].
  cbn [list_ascii_of_string forallb trimStart]. intros [-> Hs]%andb_prop. by apply IH.
Qed.

(** What [trimStart] leaves starts with a character that is not white
    space, unless the text is blank. *)
Lemma trimStart_cases (s : string) :
  (isBlank s = true /\ trimStart s = EmptyString)
  \/ (isBlank s = false /\ exists c r, trimStart s = String c r /\ isWhiteSpace c = false).
Proof.
  unfold isBlank. induction s as [|c s IH]; [by left|].
  cbn [list_ascii_of_string forallb trimStart].
  destruct (isWhiteSpace c) eqn:Hc; [exact IH|].
  right. split; [done|]. by exists c, s.
Qed.

Lemma trimEnd_head (c : ascii) (r : string) :
  isWhiteSpace c = false -> exists r', trimEnd (String c r) = String c r'.
Proof.
  intros Hc. cbn [trimEnd]. destruct (trimEnd r) as [|d r'].
  - rewrite Hc. by eexists.
  - by eexists.
Qed.

(** The trimmed text is empty exactly when the text is blank. *)
Lemma trim_empty_iff (s : string) : truthyString (trim s) = false <-> isBlank s = true.
Proof.
  unfold trim. destruct (trimStart_cases s) as [[Hb ->]|(Hb & c & r & -> & Hc)].
  - done.
  - destruct (trimEnd_head c r Hc) as [r' ->]. rewrite Hb. done.
Qed.

Lemma trim_head (c : ascii) (r : string) :
  isWhiteSpace c = false -> String.eqb (trim (String c r)) EmptyString = false.
Proof.
  intros Hc. unfold trim. cbn [trimStart]. rewrite Hc.
  by destruct (trimEnd_head c r Hc) as [r' ->].
Qed.

End TrimFacts.

Section PromptHistory.

Import App Invariants.

Variable JSON_parse : string -> option value.

Local Abbreviation addToPromptHistory := (App.addToPromptHistory JSON_parse).

Lemma filter_sublist {A : Type} (p : A -> bool) (l : list A) :
  List.filter p l `sublist_of` l.
Proof.
  induction l as [|x l IH]; [constructor|]. cbn [List.filter].
  destruct (p x); by constructor.
Qed.

Lemma filter_all {A : Type} (p : A -> bool) (l : list A) :
  Forall (fun x => p x = true) l -> List.filter p l = l.
Proof.
  induction 1 as [|x l Hx _ IH]; [done|]. cbn [List.filter]. by rewrite Hx, IH.
Qed.

Lemma filter_Forall {A : Type} (p : A -> bool) (l : list A) :
  Forall (fun x => p x = true) (List.filter p l).
Proof.
  apply List.Forall_forall. intros x Hx. by apply List.filter_In in Hx as [_ ?].
Qed.

(** X22: an entry that is written to the prompt history starts with the
    trimmed text, holds it nowhere else, has at most 50 entries, and
    keeps behind the text the entries that were stored, in their order. *)
Theorem prompt_history_entry (saved : option string) (text : string) (items : list value) :
  addToPromptHistory saved text = Ok (Some (VArr items)) ->
  head items = Some (VStr (trim text))
  /\ (List.length items <= 50)%nat
  /\ (forall i, (0 < i)%nat -> items !! i <> Some (VStr (trim text)))
  /\ exists old, readPromptHistory JSON_parse saved = VArr old
                 /\ tail items `sublist_of` old.
Proof.
  unfold App.addToPromptHistory. cbn zeta.
  destruct (truthyString (trim text)); [|done]. cbn [negb].
  destruct (readPromptHistory JSON_parse saved) as [| | | | |old|]; try done.
  intros [= <-]. unfold newPromptHistory.
  change (take 50 (VStr (trim text) :: ?l)) with (VStr (trim text) :: take 49 l).
  split; [done|]. split; [|split].
  - cbn [List.length]. rewrite length_take. lia.
  - intros [|i] Hi; [lia|]. cbn [lookup list_lookup]. intros Hlook.
    apply lookup_take_Some in Hlook as [Hlook _].
    apply list_elem_of_lookup_2, list_elem_of_In, List.filter_In in Hlook as [_ Hp].
    cbn [isString] in Hp. by rewrite String.eqb_refl in Hp.
  - exists old. split; [done|]. cbn [tail].
    etrans; [apply sublist_take|apply filter_sublist].
Qed.

(** X23: a call returns without writing and without throwing exactly
    when the text is blank (a stored history that is corrupt does not
    matter then); it writes exactly when the text is not blank and the
    stored history reads as an array; and it throws, a TypeError and
    before anything is written, exactly when the text is not blank and
    the stored history reads as something that is not an array. *)
Theorem blank_prompt_is_not_recorded (saved : option string) (text : string) :
  (addToPromptHistory saved text = Ok None <-> isBlank text = true)
  /\ ((exists written, addToPromptHistory saved text = Ok (Some written))
      <-> isBlank text = false
          /\ exists old, readPromptHistory JSON_parse saved = VArr old)
  /\ (forall e, addToPromptHistory saved text = Throw e
      <-> e = TypeError
          /\ isBlank text = false
          /\ forall old, readPromptHistory JSON_parse saved <> VArr old).
Proof.
  unfold App.addToPromptHistory. cbn zeta.
  pose proof (trim_empty_iff text) as Hblank.
  destruct (truthyString (trim text)); cbn [negb].
  - assert (Hnot : isBlank text = false).
    { destruct (isBlank text); [|done]. by destruct Hblank as [_ ?]; auto. }
    rewrite Hnot.
    destruct (readPromptHistory JSON_parse saved) as [| | | | |old|].
    6:{ split; [split; intros [=]|]. split.
        - split; [intros _; split; [reflexivity|by eexists]|intros _; by eexists].
        - intros e. split; [intros [=]|]. intros (_ & _ & Hno). by destruct (Hno old). }
    all: split; [split; intros [=]|]; split;
      [split; [intros [w [=]]|intros [_ [o [=]]]]
      |intros e; split;
         [intros [= <-]; repeat split; intros o [=]
         |intros [-> _]; reflexivity]].
  - destruct Hblank as [Hb _]. rewrite (Hb eq_refl).
    split; [done|]. split; [split; [by intros [? [=]]|by intros [[=] _]]|].
    intros e. split; [done|by intros (_ & [=] & _)].
Qed.

(** X24: recording the same prompt twice in a row gives the history that
    recording it once gives. *)
Theorem recording_twice_is_recording_once (trimmed : string) (history : list value) :
  newPromptHistory trimmed (newPromptHistory trimmed history)
  = newPromptHistory trimmed history.
Proof.
  unfold newPromptHistory.
  set (kept := List.filter (fun p => negb (isString p trimmed)) history).
  assert (Hcons : forall l : list value,
            take 50 (VStr trimmed :: l) = VStr trimmed :: take 49 l) by done.
  rewrite !Hcons. cbn [List.filter isString]. rewrite String.eqb_refl. cbn [negb].
  rewrite filter_all.
  - by rewrite take_take, Nat.min_id.
  - apply Forall_take, filter_Forall.
Qed.

End PromptHistory.

Section SeedText.

Import Adapter App Invariants.

Variable JSON_parse : string -> option value.

Lemma parseIntRadix10_leading_digit (d : N) (r : string) :
  (1 <= d <= 9)%N ->
  isWhiteSpace (pretty_N_char d) = false
  /\ parseIntRadix10 (String (pretty_N_char d) r)
     = match readDigits 10 None (String (pretty_N_char d) r) with
       | Some m => integerNumber 1 m
       | None => NaN
       end
  /\ parseIntRadix10 (String "-" (String (pretty_N_char d) r))
     = match readDigits 10 None (String (pretty_N_char d) r) with
       | Some m => integerNumber (-1) m
       | None => NaN
       end.
Proof.
  intros Hd.
  assert (H : (d = 1 \/ d = 2 \/ d = 3 \/ d = 4 \/ d = 5 \/ d = 6
               \/ d = 7 \/ d = 8 \/ d = 9)%N) by lia.
  repeat (destruct H as [->|H]; [repeat split; reflexivity|]).
  subst d. repeat split; reflexivity.
Qed.

(** The seed field holding the decimal numeral of an integer gives that
    integer, as long as a double holds it without rounding. *)
Lemma seedNumber_pretty (n : Z) :
  Z.abs n <= 2 ^ 53 -> seedNumber (pretty n) = Some (Int n).
Proof.
  intros Hn. unfold seedNumber. destruct n as [|q|q]; [reflexivity| |].
  - change (pretty (Z.pos q)) with (pretty_N_go (N.pos q) EmptyString).
    destruct (pretty_go_head (N.pos q) ltac:(lia) EmptyString) as (d & r & Hd & Heq).
    destruct (readDigits_pretty_go (N.pos q) ltac:(lia)) as [p Hp].
    destruct (parseIntRadix10_leading_digit d r Hd) as (Hws & Hpos & _).
    rewrite Heq, (trim_head _ r Hws), Hpos.
    rewrite <- Heq, Hp. cbn [readDigits from_option].
    rewrite integerNumber_exact by lia. do 2 f_equal. lia.
  - change (pretty (Z.neg q))
      with (String "-" (pretty_N_go (N.pos q) EmptyString)).
    destruct (pretty_go_head (N.pos q) ltac:(lia) EmptyString) as (d & r & Hd & Heq).
    destruct (readDigits_pretty_go (N.pos q) ltac:(lia)) as [p Hp].
    destruct (parseIntRadix10_leading_digit d r Hd) as (_ & _ & Hneg).
    rewrite (trim_head "-" _ eq_refl). rewrite Heq, Hneg.
    rewrite <- Heq, Hp. cbn [readDigits from_option].
    rewrite integerNumber_exact by lia. do 2 f_equal. lia.
Qed.

Lemma seedNumber_blank (text : string) : isBlank text = true -> seedNumber text = None.
Proof.
  intros Hb%trim_empty_iff. unfold seedNumber.
  by destruct (trim text).
Qed.

Lemma seedNumber_not_blank (text : string) :
  isBlank text = false -> seedNumber text = Some (parseIntRadix10 text).
Proof.
  intros Hb. unfold seedNumber. destruct (trim text) eqn:Ht; [|done].
  assert (isBlank text = true); [|congruence].
  apply trim_empty_iff. by rewrite Ht.
Qed.

(** X25: the seed field of the form reaches the qwen payload as follows:
    a blank field gives 42 with randomize set; the decimal numeral of an
    integer n that a number holds exactly gives n with randomize unset
    (42 when n is 0); a field that is not blank and from which no number
    can be read gives 42 with randomize unset. *)
Theorem seed_field_to_qwen_payload (env : exchange) (prompt aspectRatio : string) :
  let payload text :=
    reqBody <$> head (fst (generateImage JSON_parse env "qwen-image-fast" prompt
                             aspectRatio (seedNumber text) false)) in
  let data slot randomize :=
    Some (Some (VObj [("data",
      VArr [VStr prompt; VNum (Int slot); VBool randomize;
            VStr aspectRatio; num 3; num 8])])) in
  (forall text, isBlank text = true -> payload text = data 42 true)
  /\ (forall n : Z, Z.abs n <= 2 ^ 53 ->
        payload (pretty n) = data (if n =? 0 then 42 else n) false)
  /\ (forall text, isBlank text = false -> parseIntRadix10 text = NaN ->
        payload text = data 42 false).
Proof.
  cbn zeta. unfold generateImage. cbn [String.eqb Ascii.eqb Bool.eqb].
  split; [|split].
  - intros text Hb. rewrite (seedNumber_blank text Hb).
    apply generateQwenImage_enqueue.
  - intros n Hn. rewrite seedNumber_pretty, generateQwenImage_enqueue by done.
    cbn [qwenSeedSlot qwenRandomize truthyNumber]. by destruct (n =? 0).
  - intros text Hb Hnan. rewrite (seedNumber_not_blank text Hb), Hnan.
    apply generateQwenImage_enqueue.
Qed.

End SeedText.

Section Settings.

Import Adapter App.

(** X26: the settings that the effects save are the settings that the
    next start reads: the provider when it is one of the three, the
    aspect ratio when it is not empty, the HD flag; the token of the
    storage is not touched. Whatever the storage holds, the provider
    read is one of the three. *)
Theorem settings_survive_a_restart (provider model aspectRatio : string)
    (enableHD : bool) (items : gmap string string) :
  provider ∈ providers ->
  aspectRatio <> EmptyString ->
  let saved := Some (saveSettings provider model aspectRatio enableHD items) in
  initialProvider saved = provider
  /\ initialAspectRatio saved = aspectRatio
  /\ initialEnableHD saved = enableHD
  /\ getAuthHeaders saved = getAuthHeaders (Some items)
  /\ forall ls, initialProvider ls ∈ providers.
Proof.
  intros Hp Har. cbn zeta. unfold saveSettings. split; [|split; [|split; [|split]]].
  - unfold initialProvider. rewrite !lookup_insert_ne by done.
    rewrite lookup_insert_eq. unfold providers in Hp.
    assert (Hin : includes providers (Some provider) = true).
    { cbn. apply orb_true_iff.
      repeat (apply elem_of_cons in Hp as [->|Hp]; [by vm_compute; auto|]).
      by apply elem_of_nil in Hp. }
    by rewrite Hin.
  - unfold initialAspectRatio, getItem. rewrite lookup_insert_ne by done.
    rewrite lookup_insert_eq. by destruct aspectRatio.
  - unfold initialEnableHD, getItem. rewrite lookup_insert_eq. by destruct enableHD.
  - unfold getAuthHeaders, getItem. by rewrite !lookup_insert_ne.
  - assert (Hdefault : "huggingface" ∈ providers) by (by left).
    intros [items'|]; unfold initialProvider; [|exact Hdefault].
    destruct (items' !! "app_provider") as [saved|]; [|exact Hdefault].
    destruct (includes _ _) eqn:Hin; [|exact Hdefault].
    cbn in Hin. unfold providers. rewrite !elem_of_cons.
    repeat (apply orb_prop in Hin as [Hin|Hin];
            [apply String.eqb_eq in Hin; auto|]).
    done.
Qed.

End Settings.

Section Handlers.

Import Tracker App Invariants.

Implicit Types (st : AppState) (vs : ViewState).

(** X27: deleting removes from the history exactly the records with the
    id of the image on display and keeps the others in their order; the
    first of them goes on display (nothing when none is left), so that the
    image on display is a record of the history again; live mode is on
    exactly when that image has a finished video; and the history gets
    shorter when the deleted image was in it. *)
Theorem delete_removes_the_displayed_image vs (current : Img.t) :
  currentImage (core vs) = Some current ->
  let after := core (handleDelete vs) in
  (forall img, img ∈ history after
               <-> img ∈ history (core vs) /\ Img.id img <> Img.id current)
  /\ history after `sublist_of` history (core vs)
  /\ currentImage after = head (history after)
  /\ displayedInHistory after
  /\ isLiveMode after = from_option hasVideo false (currentImage after)
  /\ (current ∈ history (core vs) ->
      (List.length (history after) < List.length (history (core vs)))%nat).
Proof.
  intros Hcur. cbn zeta. unfold handleDelete. rewrite Hcur.
  set (keep := fun img : Img.t => negb (String.eqb (Img.id img) (Img.id current))).
  assert (Hhist : history (core
            {| core := match List.filter keep (history (core vs)) with
                       | nextImg :: _ =>
                           {| history := List.filter keep (history (core vs));
                              currentImage := Some nextImg;
                              isLiveMode := hasVideo nextImg; error := None |}
                       | [] =>
                           {| history := List.filter keep (history (core vs));
                              currentImage := None; isLiveMode := false; error := None |}
                       end;
               showInfo := false; imageDimensions := imageDimensions vs;
               isComparing := false; tempUpscaledImage := None |})
          = List.filter keep (history (core vs))).
  { cbn [core]. by destruct (List.filter keep (history (core vs))). }
  rewrite Hhist. split; [|split; [|split; [|split; [|split]]]].
  - intros img. rewrite !list_elem_of_In, List.filter_In. unfold keep.
    rewrite negb_true_iff, String.eqb_neq. done.
  - apply filter_sublist.
  - cbn [core]. by destruct (List.filter keep (history (core vs))).
  - unfold displayedInHistory. cbn [core].
    destruct (List.filter keep (history (core vs))) as [|x l]; [done|].
    cbn [currentImage history]. by left.
  - cbn [core]. by destruct (List.filter keep (history (core vs))).
  - intros Hin. clear Hhist Hcur.
    induction (history (core vs)) as [|x l IH]; [by apply elem_of_nil in Hin|].
    cbn [List.filter List.length].
    assert (Hle : (List.length (List.filter keep l) <= List.length l)%nat)
      by apply List.filter_length_le.
    apply elem_of_cons in Hin as [<-|Hin].
    + unfold keep at 1. rewrite String.eqb_refl. cbn [negb]. lia.
    + destruct (keep x); cbn [List.length]; [|lia]. apply IH in Hin. lia.
Qed.








End Handlers.

(** ** The further properties on worked inputs *)

Section FurtherExamples.

Import Sse Json Lines Adapter Exchange Tracker Prompt App Invariants Examples Scenarios.

Lemma crlf_stream_parses_the_same_witness :
  extractCompleteEventData parseJSON (crlfLines completeLines)
  = extractCompleteEventData parseJSON (unlines completeLines).
Proof.
  apply (crlf_stream_parses_the_same parseJSON completeLines).
  repeat constructor.
Defined.

Lemma refused_job_sends_one_request_witness :
  (exists enqueue,
      fst (generateQwenImage parseJSON refusedExchange "a cat" "1:1" None) = [enqueue]
      /\ reqMethod enqueue = "POST")
  /\ snd (generateQwenImage parseJSON refusedExchange "a cat" "1:1" None)
     = Throw (Error "Failed to fetch").
Proof.
  destruct (refused_job_sends_one_request parseJSON refusedExchange
              "qwen-image-fast" "a cat" "1:1" "https://h.example/x.png" None false
              (Error "Failed to fetch") (or_introl eq_refl)
              (fst (generateQwenImage parseJSON refusedExchange "a cat" "1:1" None))
              (or_intror (or_introl eq_refl)))
    as (Hsent & _ & Hqwen & _).
  exact (conj Hsent Hqwen).
Defined.

Lemma accepted_exchangeWith (stream : string) : accepted (exchangeWith stream).
Proof. exists (VObj [("event_id", VStr "e1")]), (VStr "e1"). by split. Qed.

Lemma stream_failure_reaches_the_caller_witness :
  snd (upscaler parseJSON (exchangeWith errorThenComplete) "https://h.example/x.png")
  = Throw (Error quotaMessage).
Proof.
  apply (stream_failure_reaches_the_caller parseJSON (exchangeWith errorThenComplete)
           "z-image-turbo" "a cat" "1:1" "https://h.example/x.png" None false
           (Error quotaMessage)).
  - apply accepted_exchangeWith.
  - right. exists errorThenComplete. split; [reflexivity|]. vm_compute. reflexivity.
Defined.

Lemma no_result_is_a_type_error_witness :
  snd (generateImage parseJSON (exchangeWith completeNoData) "z-image-turbo"
         "a cat" "1:1" None false)
  = Throw TypeError.
Proof.
  apply (no_result_is_a_type_error parseJSON (exchangeWith completeNoData)
           "z-image-turbo" "a cat" "1:1" "https://h.example/x.png" completeNoData
           None false).
  - apply accepted_exchangeWith.
  - reflexivity.
  - vm_compute. reflexivity.
Defined.

Lemma missing_event_id_is_requested_as_undefined_witness :
  reqUrl <$> fst (generateImage parseJSON noEventIdExchange "z-image-turbo"
                    "a cat" "1:1" None false) !! 1%nat
  = Some "https://luca115-z-image-turbo.hf.space/gradio_api/call/generate_image/undefined".
Proof.
  apply (missing_event_id_is_requested_as_undefined parseJSON noEventIdExchange
           "z-image-turbo" "a cat" "1:1" None false [("detail", VStr "Not Found")]).
  - reflexivity.
  - reflexivity.
Defined.

Lemma generated_image_metadata_witness :
  exists img,
    snd (generateImage parseJSON echoExchange "qwen-image-fast" "a cat" "1:1"
           (Some (Int 42)) false) = Ok img
    /\ Img.id img = "0b9f6d0e-7c57-4a53-9a1e-2f1c3f6e8a11"
    /\ Img.model img = "qwen-image-fast".
Proof.
  eexists. split; [vm_compute; reflexivity|].
  destruct (generated_image_metadata parseJSON echoExchange "qwen-image-fast"
              "a cat" "1:1" (Some (Int 42)) false
              {| Img.id := "0b9f6d0e-7c57-4a53-9a1e-2f1c3f6e8a11";
                 Img.url := VStr "https://h.example/x.png";
                 Img.model := "qwen-image-fast"; Img.prompt := "a cat";
                 Img.aspectRatio := "1:1"; Img.timestamp := 1700000000000;
                 Img.seed := VNum (Int 42); Img.videoStatus := None;
                 Img.videoTaskId := None; Img.videoProvider := None;
                 Img.videoUrl := None; Img.videoError := None |})
    as (Hid & _ & _ & _ & Hmodel & _).
  - vm_compute. reflexivity.
  - exact (conj Hid Hmodel).
Defined.

Lemma qwen_seed_must_be_a_string_witness :
  snd (generateQwenImage parseJSON (exchangeWith numberSeedStream) "a cat" "1:1" None)
  = Throw TypeError.
Proof.
  apply (qwen_seed_must_be_a_string parseJSON (exchangeWith numberSeedStream)
           "a cat" "1:1" numberSeedStream None
           (VArr [VObj [("url", VStr "https://h.example/x.png")]; VNum (Int 42)])
           (VObj [("url", VStr "https://h.example/x.png")])
           (VStr "https://h.example/x.png") (VNum (Int 42))).
  - apply accepted_exchangeWith.
  - reflexivity.
  - vm_compute. reflexivity.
  - reflexivity.
  - reflexivity.
  - reflexivity.
  - intros s. discriminate.
Defined.

Lemma no_other_header_witness :
  getAuthHeaders (Some {[ "huggingFaceToken" := "hf_token" ]}) !! "Cookie" = None.
Proof.
  apply (no_other_header (Some {[ "huggingFaceToken" := "hf_token" ]}) "Cookie").
  - discriminate.
  - discriminate.
Defined.

Lemma zimage_dimensions_transpose_witness :
  width (getZImageDimensions "9:16" true) = height (getZImageDimensions "16:9" true)
  /\ height (getZImageDimensions "9:16" true) = width (getZImageDimensions "16:9" true).
Proof.
  apply (zimage_dimensions_transpose R16_9 R9_16 true 16 9).
  - reflexivity.
  - reflexivity.
Defined.

Lemma unknown_ratio_is_square_witness :
  getZImageDimensions "4:5" true = square true.
Proof.
  apply (unknown_ratio_is_square "4:5" true).
  intros H. repeat (apply elem_of_cons in H as [H|H]; [discriminate H|]).
  by apply elem_of_nil in H.
Defined.

Lemma optimizer_content_or_prompt_witness :
  snd (optimizePrompt (Ok emptyContentReply) "a cat") = Ok (VStr "a cat").
Proof.
  destruct (optimizer_content_or_prompt emptyContentReply "a cat" emptyContentFields
              eq_refl eq_refl) as (_ & _ & Hfirst).
  destruct (Hfirst [("message", VObj [("content", VStr EmptyString)])] [] eq_refl)
    as (_ & Hmessage).
  destruct (Hmessage [("content", VStr EmptyString)] eq_refl) as (_ & Hempty & _).
  exact (Hempty eq_refl).
Defined.

Lemma trackerState_in_sync : displayedInSync trackerState.
Proof.
  intros c item [= <-] Hin Hid.
  repeat (apply elem_of_cons in Hin as [->|Hin]; [done || discriminate Hid|]).
  by apply elem_of_nil in Hin.
Qed.

Lemma displayed_image_stays_in_sync_witness :
  displayedInSync (snd (pollCycle trackerService trackerState)).
Proof.
  apply (displayed_image_stays_in_sync trackerService trackerState).
  apply trackerState_in_sync.
Defined.

Lemma idle_tracker_stays_idle_witness :
  runCycles [trackerService; failingService; noUrlService] idleState = idleState.
Proof.
  destruct (idle_tracker_stays_idle [trackerService; failingService; noUrlService]
              idleState eq_refl) as [Hsame _].
  exact Hsame.
Defined.

Lemma final_answers_end_the_polling_witness :
  List.filter isPendingVideo (history (snd (pollCycle failingService trackerState))) = [].
Proof.
  destruct (final_answers_end_the_polling failingService trackerState) as [Hnone _].
  - apply (bool_decide_unpack _). vm_compute. reflexivity.
  - intros item _ _. eexists. split; reflexivity.
  - exact Hnone.
Defined.

Lemma success_without_url_is_not_final_witness :
  history (snd (pollCycle noUrlService trackerState)) !! 0%nat = Some recordA.
Proof.
  destruct (success_without_url_is_not_final noUrlService trackerState 0 recordA
              {| status := "success"; statusVideoUrl := None; statusError := None |})
    as [Hsame _].
  - apply (bool_decide_unpack _). vm_compute. reflexivity.
  - reflexivity.
  - reflexivity.
  - reflexivity.
  - reflexivity.
  - reflexivity.
  - exact Hsame.
Defined.

Lemma prompt_history_entry_witness :
  head [VStr "a dog"; VStr "a cat"] = Some (VStr (trim " a dog "))
  /\ (List.length [VStr "a dog"; VStr "a cat"] <= 50)%nat.
Proof.
  destruct (prompt_history_entry parseJSON (Some savedPrompts) " a dog "
              [VStr "a dog"; VStr "a cat"]) as (Hhead & Hlen & _).
  - vm_compute. reflexivity.
  - exact (conj Hhead Hlen).
Defined.

Lemma settings_survive_a_restart_witness :
  initialProvider (Some (saveSettings "gitee" "flux" "16:9" true ∅)) = "gitee"
  /\ initialAspectRatio (Some (saveSettings "gitee" "flux" "16:9" true ∅)) = "16:9"
  /\ initialEnableHD (Some (saveSettings "gitee" "flux" "16:9" true ∅)) = true.
Proof.
  destruct (settings_survive_a_restart "gitee" "flux" "16:9" true ∅)
    as (Hp & Har & Hhd & _).
  - right. left.
  - discriminate.
  - exact (conj Hp (conj Har Hhd)).
Defined.

Lemma delete_removes_the_displayed_image_witness :
  history (core (handleDelete trackerView)) `sublist_of` history trackerState
  /\ currentImage (core (handleDelete trackerView))
     = head (history (core (handleDelete trackerView))).
Proof.
  destruct (delete_removes_the_displayed_image trackerView recordB eq_refl)
    as (_ & Hsub & Hhead & _).
  exact (conj Hsub Hhead).
Defined.




End FurtherExamples.
